(** * IDS_System front end: the live session layer

    A shallow embedding of
      - [frontend/src/contexts/WebSocketContext.jsx] (module [Channel]),
      - [frontend/src/pages/LiveMonitoring.jsx]      (module [Monitor]),
    together with the properties of the session layer that were checked
    against them.

    JavaScript values that come out of [JSON.parse] or of an HTTP response
    body are modelled by [json]; objects are finite maps from property names
    to values.  React state is a record that the event handlers transform;
    [async] functions are terms of a small free monad ([Monitor.proc]) whose
    suspension points are exactly the [await]s of the source. *)

From Stdlib Require Import ZArith QArith Lia.
From stdpp Require Import gmap strings list sorting.

Set Warnings "-register-all".

(** ** JavaScript values *)

Module Js.

(** A value as [JSON.parse] produces it, plus [undefined] (what reading a
    missing property gives).  Numbers are finite doubles, every one of them
    a rational; [NaN] cannot come out of JSON. *)
Inductive json : Type :=
| JUndef
| JNull
| JBool (b : bool)
| JNum (q : Q)
| JStr (s : string)
| JArr (l : list json)
| JObj (m : gmap string json).

(** ToBoolean. *)
Definition truthy (v : json) : bool :=
  match v with
  | JUndef | JNull => false
  | JBool b => b
  | JNum q => negb (Qnum q =? 0)%Z
  | JStr s => negb (String.eqb s "")
  | JArr _ | JObj _ => true
  end.

(** [a || b] *)
Definition or_else (a b : json) : json := if truthy a then a else b.

(** [v === 'literal'] *)
Definition str_is (v : json) (lit : string) : bool :=
  match v with
  | JStr s => String.eqb s lit
  | _ => false
  end.

(** [v == null]: the values on which a property read throws a TypeError. *)
Definition nullish (v : json) : bool :=
  match v with
  | JUndef | JNull => true
  | _ => false
  end.

(** [o.k] on an object literal or parsed object. *)
Definition prop (m : gmap string json) (k : string) : json :=
  default JUndef (m !! k).

(** [v.k] for a value that is not nullish.  None of the property names read
    by the source is a built-in of String, Number, Boolean or Array, so on
    those the read gives [undefined]. *)
Definition get (v : json) (k : string) : json :=
  match v with
  | JObj m => prop m k
  | _ => JUndef
  end.

Definition zero : json := JNum (0 # 1).

End Js.

Import Js.

(** ** WebSocketContext.jsx *)

Module Channel.

(** [WebSocket.readyState] *)
Inductive readyState := CONNECTING | OPEN | CLOSING | CLOSED.

(** A subscriber is a function object; a [Set] compares them by identity. *)
Definition handler := nat.

(** What a subscriber callback can do to the provider while it runs: the
    provider's refs are private, so it is reached only through the context
    value ([subscribe], [connect], [disconnect]), through a capability
    returned by [subscribe], or by an exception. *)
Inductive hstep :=
| Subscribe (h : handler)
| Unsubscribe (h : handler)
| CallConnect
| CallDisconnect
| Raise.

Record state := mkState {
  isConnected : bool;
  lastMessage : json;
  wsRef : option nat;                       (* index into [sockets] *)
  reconnectTimeoutRef : option nat;         (* timer id *)
  messageHandlersRef : list (option handler);
      (* [[SetData]] of the Set: entries in insertion order, a deleted entry
         is replaced by the marker empty ([None]) *)
  sockets : list readyState;                (* every WebSocket constructed so far *)
  timers : list nat;                        (* pending [setTimeout] ids *)
  timerSeq : nat;                           (* last timer id handed out *)
  delivered : list (handler * json);        (* calls [handler(data)], in order *)
  errors : nat                              (* [console.error] calls *)
}.

Definition init : state :=
  {| isConnected := false; lastMessage := JNull; wsRef := None;
     reconnectTimeoutRef := None; messageHandlersRef := [];
     sockets := []; timers := []; timerSeq := 0; delivered := []; errors := 0 |}.

Definition setIsConnected (b : bool) (st : state) : state :=
  mkState b (lastMessage st) (wsRef st) (reconnectTimeoutRef st)
    (messageHandlersRef st) (sockets st) (timers st) (timerSeq st)
    (delivered st) (errors st).

Definition setLastMessage (d : json) (st : state) : state :=
  mkState (isConnected st) d (wsRef st) (reconnectTimeoutRef st)
    (messageHandlersRef st) (sockets st) (timers st) (timerSeq st)
    (delivered st) (errors st).

Definition set_wsRef (r : option nat) (st : state) : state :=
  mkState (isConnected st) (lastMessage st) r (reconnectTimeoutRef st)
    (messageHandlersRef st) (sockets st) (timers st) (timerSeq st)
    (delivered st) (errors st).

Definition set_reconnectTimeoutRef (r : option nat) (st : state) : state :=
  mkState (isConnected st) (lastMessage st) (wsRef st) r
    (messageHandlersRef st) (sockets st) (timers st) (timerSeq st)
    (delivered st) (errors st).

Definition set_handlers (hs : list (option handler)) (st : state) : state :=
  mkState (isConnected st) (lastMessage st) (wsRef st) (reconnectTimeoutRef st)
    hs (sockets st) (timers st) (timerSeq st) (delivered st) (errors st).

Definition set_sockets (ss : list readyState) (st : state) : state :=
  mkState (isConnected st) (lastMessage st) (wsRef st) (reconnectTimeoutRef st)
    (messageHandlersRef st) ss (timers st) (timerSeq st)
    (delivered st) (errors st).

Definition set_timers (ts : list nat) (st : state) : state :=
  mkState (isConnected st) (lastMessage st) (wsRef st) (reconnectTimeoutRef st)
    (messageHandlersRef st) (sockets st) ts (timerSeq st)
    (delivered st) (errors st).

Definition console_error (st : state) : state :=
  mkState (isConnected st) (lastMessage st) (wsRef st) (reconnectTimeoutRef st)
    (messageHandlersRef st) (sockets st) (timers st) (timerSeq st)
    (delivered st) (S (errors st)).

Definition log_delivery (h : handler) (d : json) (st : state) : state :=
  mkState (isConnected st) (lastMessage st) (wsRef st) (reconnectTimeoutRef st)
    (messageHandlersRef st) (sockets st) (timers st) (timerSeq st)
    (delivered st ++ [(h, d)]) (errors st).

(** *** The runtime: timers and sockets *)

(** [setTimeout(f, 3000)]: a fresh non-zero id, pending until it fires or
    is cleared.  The only callback ever scheduled is [() => connect()]. *)
Definition setTimeout (st : state) : nat * state :=
  let id := S (timerSeq st) in
  (id, mkState (isConnected st) (lastMessage st) (wsRef st)
         (reconnectTimeoutRef st) (messageHandlersRef st) (sockets st)
         (timers st ++ [id]) id (delivered st) (errors st)).

Definition clearTimeout (id : nat) (st : state) : state :=
  set_timers (filter (fun t => t ≠ id) (timers st)) st.

(** A timer that fires is no longer pending. *)
Definition expire (id : nat) (st : state) : state :=
  set_timers (filter (fun t => t ≠ id) (timers st)) st.

(** [ws.close()]: an open or connecting socket starts closing (its close
    event comes later, from the runtime); otherwise nothing happens. *)
Definition ws_close (i : nat) (st : state) : state :=
  match sockets st !! i with
  | Some OPEN | Some CONNECTING => set_sockets (<[i := CLOSING]> (sockets st)) st
  | _ => st
  end.

(** *** The subscriber Set *)

Definition live (entries : list (option handler)) : list handler :=
  omap id entries.

Definition set_has (h : handler) (entries : list (option handler)) : bool :=
  bool_decide (h ∈ live entries).

Definition set_add (h : handler) (entries : list (option handler)) :=
  if set_has h entries then entries else entries ++ [Some h].

Definition set_delete (h : handler) (entries : list (option handler)) :=
  (fun e => if bool_decide (e = Some h) then None else e) <$> entries.

Definition subscribers (st : state) : list handler :=
  live (messageHandlersRef st).

(** *** The provider's callbacks *)

Section Provider.

(** [new WebSocket(url)] throws on a malformed URL; the URL is built from
    the constant [WS_BASE_URL] of [../config], a deployment setting, so
    whether it is well formed is a parameter. *)
Variable url_ok : bool.

(** What each subscriber does when called. *)
Variable body : handler -> list hstep.

Definition connect (st : state) : state :=
  let busy :=
    match wsRef st with
    | Some i =>
        match sockets st !! i with
        | Some OPEN | Some CONNECTING => true
        | _ => false
        end
    | None => false
    end in
  if busy then st
  else if url_ok then
    let ws := length (sockets st) in
    set_wsRef (Some ws) (set_sockets (sockets st ++ [CONNECTING]) st)
  else
    setIsConnected false (console_error st).

Definition disconnect (st : state) : state :=
  let st1 :=
    match reconnectTimeoutRef st with
    | Some t => set_reconnectTimeoutRef None (clearTimeout t st)
    | None => st
    end in
  let st2 :=
    match wsRef st1 with
    | Some i => set_wsRef None (ws_close i st1)
    | None => st1
    end in
  setIsConnected false st2.

Definition subscribe (h : handler) (st : state) : state :=
  set_handlers (set_add h (messageHandlersRef st)) st.

(** The function returned by [subscribe(h)]. *)
Definition unsubscribe (h : handler) (st : state) : state :=
  set_handlers (set_delete h (messageHandlersRef st)) st.

(** [ws.onopen] *)
Definition onopen (st : state) : state :=
  let st1 := setIsConnected true st in
  match reconnectTimeoutRef st1 with
  | Some t => set_reconnectTimeoutRef None (clearTimeout t st1)
  | None => st1
  end.

(** [ws.onerror] *)
Definition onerror (st : state) : state :=
  setIsConnected false (console_error st).

(** [ws.onclose] *)
Definition onclose (st : state) : state :=
  let st1 := setIsConnected false st in
  let '(t, st2) := setTimeout st1 in
  set_reconnectTimeoutRef (Some t) st2.

(** Running [handler(data)] inside the inner [try]: the steps of the body
    up to the first exception, which the [catch] logs. *)
Fixpoint run_body (steps : list hstep) (st : state) : state :=
  match steps with
  | [] => st
  | Subscribe h :: rest => run_body rest (subscribe h st)
  | Unsubscribe h :: rest => run_body rest (unsubscribe h st)
  | CallConnect :: rest => run_body rest (connect st)
  | CallDisconnect :: rest => run_body rest (disconnect st)
  | Raise :: _ => console_error st
  end.

Definition call_handler (h : handler) (data : json) (st : state) : state :=
  run_body (body h) (log_delivery h data st).

(** [messageHandlersRef.current.forEach(handler => ...)], as
    Set.prototype.forEach is specified: walk the entries by index, re-read
    the entry list after every call, skip the entries marked empty.  A
    subscriber that keeps re-adding subscribers makes the loop run for
    ever; [fuel] bounds the number of entries visited. *)
Fixpoint forEach (fuel : nat) (data : json) (index : nat) (st : state)
  : option state :=
  match messageHandlersRef st !! index with
  | None => Some st
  | Some e =>
      match fuel with
      | 0 => None
      | S fuel' =>
          match e with
          | None => forEach fuel' data (S index) st
          | Some h => forEach fuel' data (S index) (call_handler h data st)
          end
      end
  end.

(** [ws.onmessage]; [parsed] is the outcome of [JSON.parse(event.data)],
    [None] when it throws. *)
Definition onmessage (fuel : nat) (parsed : option json) (st : state)
  : option state :=
  match parsed with
  | None => Some (console_error st)
  | Some data => forEach fuel data 0 (setLastMessage data st)
  end.

(** *** The event loop

    One event is either a call of the provider's API or something the
    runtime does to a socket or a timer.  [step] is [None] when the
    runtime cannot produce the event in that state (or when dispatch does
    not return within [fuel]). *)
Inductive event :=
| Connect
| Disconnect
| Sub (h : handler)
| Unsub (h : handler)
| Opened (i : nat)
| Message (i : nat) (parsed : option json)
| Errored (i : nat)
| Closed (i : nat)
| TimerFired (t : nat).

Definition step (fuel : nat) (e : event) (st : state) : option state :=
  match e with
  | Connect => Some (connect st)
  | Disconnect => Some (disconnect st)
  | Sub h => Some (subscribe h st)
  | Unsub h => Some (unsubscribe h st)
  | Opened i =>
      match sockets st !! i with
      | Some CONNECTING => Some (onopen (set_sockets (<[i := OPEN]> (sockets st)) st))
      | _ => None
      end
  | Message i parsed =>
      match sockets st !! i with
      | Some OPEN => onmessage fuel parsed st
      | _ => None
      end
  | Errored i =>
      match sockets st !! i with
      | Some CLOSED | None => None
      | Some _ => Some (onerror st)
      end
  | Closed i =>
      match sockets st !! i with
      | Some CLOSED | None => None
      | Some _ => Some (onclose (set_sockets (<[i := CLOSED]> (sockets st)) st))
      end
  | TimerFired t =>
      if bool_decide (t ∈ timers st)
      then Some (connect (expire t st))
      else None
  end.

Fixpoint run (fuel : nat) (evs : list event) (st : state) : option state :=
  match evs with
  | [] => Some st
  | e :: rest =>
      match step fuel e st with
      | Some st' => run fuel rest st'
      | None => None
      end
  end.

(** The subscribers called one after the other, the Set left aside. *)
Definition deliver (data : json) (hs : list handler) (st : state) : state :=
  foldl (fun s h => call_handler h data s) st hs.

End Provider.

(** *** Vocabulary for the statements *)

(** A subscriber that leaves the provider alone while it handles a message
    (it may throw). *)
Definition quiet (body : handler -> list hstep) (h : handler) : Prop :=
  Forall (fun s => s = Raise) (body h).

(** The calls made between two states, and who was called. *)
Definition received (st st' : state) : list (handler * json) :=
  drop (length (delivered st)) (delivered st').

Definition receivers (st st' : state) : list handler :=
  fst <$> received st st'.

(** Two sample populations of subscribers: nobody touches the Set; the
    first subscriber registers a second one when it is called. *)
Definition nobody : handler -> list hstep := fun _ => [].

(** The teardown followed by what the runtime does next: the close event
    of the socket that was current, then the timer that [onclose] set. *)
Definition teardown (st : state) : list event :=
  match wsRef st with
  | Some i => [Disconnect; Closed i; TimerFired (S (timerSeq st))]
  | None => [Disconnect]
  end.

Definition adds_two : handler -> list hstep :=
  fun h => match h with 1 => [Subscribe 2] | _ => [] end.

(** The first subscriber unsubscribes the second one when it is called. *)
Definition removes_two : handler -> list hstep :=
  fun h => match h with 1 => [Unsubscribe 2] | _ => [] end.

(** Every socket other than the current one is closing or closed. *)
Definition tidy (st : state) : Prop :=
  forall j s, sockets st !! j = Some s -> wsRef st <> Some j ->
              s = CLOSING \/ s = CLOSED.

(** A socket that is connecting or open. *)
Definition live_socket (st : state) (i : nat) : Prop :=
  sockets st !! i = Some OPEN \/ sockets st !! i = Some CONNECTING.

(** The subscriber's body ends in an exception. *)
Definition throws (body : handler -> list hstep) (h : handler) : bool :=
  existsb (fun s => match s with Raise => true | _ => false end) (body h).


(** A subscriber that throws on every message. *)
Definition second_throws : handler -> list hstep :=
  fun h => match h with 2 => [Raise] | _ => [] end.

(** Three subscribers on an open socket. *)
Definition three_subscribers : state :=
  mkState true JNull (Some 0) None [Some 1; Some 2; Some 3] [OPEN] [] 0 [] 0.


End Channel.

(** ** LiveMonitoring.jsx *)

Module Monitor.

(** *** Data *)

(** A flow as kept in the [flows] state: a plain object. *)
Abbreviation flow := (gmap string json).

Record Stats := mkStats { total : nat; attacks : nat }.

(** What a rejected [api] call throws: [error.response?.data?.detail] and
    [error.message]. *)
Record error := mkError { err_detail : json; err_message : json }.

(** A property read on [null] or [undefined], or a call of something that
    is not a function.  It has no [response]; its [message] is worded by
    the engine, and stands here as the error's name. *)
Definition TypeError : error :=
  {| err_detail := JUndef; err_message := JStr "TypeError" |}.

(** [error.response?.data?.detail || error.message] *)
Definition describe (e : error) : json := or_else (err_detail e) (err_message e).

(** The remote API as the page uses it.  A call settles with the response
    body ([response.data]) or rejects. *)
Inductive request :=
| GetHealth                       (* api.get('/health') *)
| GetHistory                      (* api.get('/predictions/history?limit=1000') *)
| PostStart                       (* api.post('/health/sniffer/start') *)
| PostStop                        (* api.post('/health/sniffer/stop') *)
| PostInterface (name : string).  (* api.post('/health/sniffer/interface?interface=...') *)

Inductive result :=
| Resolved (data : json)
| Rejected (e : error).


(** The [alert(...)] boxes, by template; the argument is the interpolated
    value. *)
Inductive alert :=
| StartWarning (message : json)    (* `Warning: ${message}\n\nYou can still use ...` *)
| StartFailed (why : json)         (* `Failed to start monitoring: ${...}` *)
| StopFailed (why : json)          (* `Failed to stop monitoring: ${...}` *)
| InterfaceChanged (name : string) (* `Interface changed to ${newInterface}` *)
| ChangeFailed (why : json).       (* `Failed to change interface: ${...}` *)

(** The line feed, [\n] in the source's literals. *)
Definition LF : string := String (Ascii.ascii_of_nat 10) EmptyString.

(** ['Sniffer failed to start. This may be due to:\n- Interface not found\n-
    Permission issues (need root/admin)\n- Interface not accessible'] *)
Definition sniffer_failed_text : string :=
  String.append "Sniffer failed to start. This may be due to:"
    (String.append LF
       (String.append "- Interface not found"
          (String.append LF
             (String.append "- Permission issues (need root/admin)"
                (String.append LF "- Interface not accessible"))))).

Record InterfaceInfo := mkInfo {
  interface : json;
  available : json;
  exists_ : json;
  active_flows : json
}.

(** The component's state ([useState] cells), the two values it reads from
    the WebSocket context, and what it did to the outside world. *)
Record state := mkState {
  flows : list flow;
  isMonitoring : bool;            (* only ever tested for truth *)
  stats : Stats;
  interfaceInfo : option InterfaceInfo;
  snifferStats : json;
  selectedInterface : json;
  isConnected : bool;             (* from useWebSocket() *)
  connects : nat;                 (* calls of the context's connect() *)
  alerts : list alert;
  requests : list request         (* remote calls issued, oldest first *)
}.

Definition init : state :=
  {| flows := []; isMonitoring := false; stats := mkStats 0 0;
     interfaceInfo := None; snifferStats := JNull;
     selectedInterface := JStr ""; isConnected := false; connects := 0;
     alerts := []; requests := [] |}.

Definition setFlows (f : list flow -> list flow) (st : state) : state :=
  mkState (f (flows st)) (isMonitoring st) (stats st) (interfaceInfo st)
    (snifferStats st) (selectedInterface st) (isConnected st) (connects st)
    (alerts st) (requests st).

Definition setIsMonitoring (b : bool) (st : state) : state :=
  mkState (flows st) b (stats st) (interfaceInfo st)
    (snifferStats st) (selectedInterface st) (isConnected st) (connects st)
    (alerts st) (requests st).

Definition setStats (f : Stats -> Stats) (st : state) : state :=
  mkState (flows st) (isMonitoring st) (f (stats st)) (interfaceInfo st)
    (snifferStats st) (selectedInterface st) (isConnected st) (connects st)
    (alerts st) (requests st).

Definition setInterfaceInfo (i : InterfaceInfo) (st : state) : state :=
  mkState (flows st) (isMonitoring st) (stats st) (Some i)
    (snifferStats st) (selectedInterface st) (isConnected st) (connects st)
    (alerts st) (requests st).

Definition setSnifferStats (s : json) (st : state) : state :=
  mkState (flows st) (isMonitoring st) (stats st) (interfaceInfo st)
    s (selectedInterface st) (isConnected st) (connects st)
    (alerts st) (requests st).

Definition setSelectedInterface (s : json) (st : state) : state :=
  mkState (flows st) (isMonitoring st) (stats st) (interfaceInfo st)
    (snifferStats st) s (isConnected st) (connects st)
    (alerts st) (requests st).

Definition connect (st : state) : state :=
  mkState (flows st) (isMonitoring st) (stats st) (interfaceInfo st)
    (snifferStats st) (selectedInterface st) (isConnected st) (S (connects st))
    (alerts st) (requests st).

Definition show_alert (a : alert) (st : state) : state :=
  mkState (flows st) (isMonitoring st) (stats st) (interfaceInfo st)
    (snifferStats st) (selectedInterface st) (isConnected st) (connects st)
    (alerts st ++ [a]) (requests st).

Definition issue (r : request) (st : state) : state :=
  mkState (flows st) (isMonitoring st) (stats st) (interfaceInfo st)
    (snifferStats st) (selectedInterface st) (isConnected st) (connects st)
    (alerts st) (requests st ++ [r]).

(** *** The push handler (the callback given to [subscribe]) *)

(** [{...data, confidence: data.confidence || data.binary_confidence || 0}] *)
Definition flowData (data : flow) : flow :=
  <["confidence" :=
      or_else (or_else (prop data "confidence") (prop data "binary_confidence")) zero]>
    data.

Definition applyPush (data : flow) (st : state) : state :=
  let st1 := setFlows (fun prev => take 200 (flowData data :: prev)) st in
  setStats (fun prev =>
              {| total := total prev + 1;
                 attacks := attacks prev + (if truthy (prop data "is_attack") then 1 else 0) |})
           st1.

(** *** The body of [refreshStats] after the fetch *)

(** [history.map(h => ({...}))] for one record. *)
Definition fromHistory (h : json) : flow :=
  list_to_map
    [ ("timestamp", or_else (get h "created_at") (get h "timestamp"));
      ("src_ip", get h "src_ip");
      ("dst_ip", get h "dst_ip");
      ("src_port", get h "src_port");
      ("dst_port", get h "dst_port");
      ("protocol", get h "protocol");
      ("is_attack", get h "is_attack");
      ("attack_type", get h "attack_type");
      ("severity", get h "severity");
      ("confidence",
         or_else (or_else (get h "binary_confidence") (get h "confidence")) zero) ].

(** *** [Array.prototype.sort]

    A comparator returns a number, [None] standing for NaN. *)

(** The stable sort by a comparator: an element moves behind another only
    when the comparator, called on the two, is positive.  For a comparator
    that is consistent on the array this is the one order ECMA-262 allows
    (sorted by the comparator, equal elements in their original order). *)
Definition goes_after (cmp : flow -> flow -> option Z) (a b : flow) : bool :=
  match cmp a b with
  | Some v => (0 <? v)%Z
  | None => false
  end.

Fixpoint insert_flow (cmp : flow -> flow -> option Z) (x : flow) (l : list flow)
    : list flow :=
  match l with
  | [] => [x]
  | y :: l' => if goes_after cmp x y then y :: insert_flow cmp x l' else x :: l
  end.

Definition stable_sort (cmp : flow -> flow -> option Z) (l : list flow) : list flow :=
  foldr (insert_flow cmp) [] l.

(** A consistent comparator for the elements of [l] (ECMA-262, 23.1.3.30):
    it never returns NaN, every element equals itself, equality is
    symmetric, and equality, less-than and greater-than are transitive. *)
Definition consistent (cmp : flow -> flow -> option Z) (l : list flow) : Prop :=
  (forall a b, a ∈ l -> b ∈ l -> is_Some (cmp a b)) /\
  (forall a, a ∈ l -> cmp a a = Some 0%Z) /\
  (forall a b, a ∈ l -> b ∈ l -> cmp a b = Some 0%Z -> cmp b a = Some 0%Z) /\
  (forall a b c, a ∈ l -> b ∈ l -> c ∈ l ->
     cmp a b = Some 0%Z -> cmp b c = Some 0%Z -> cmp a c = Some 0%Z) /\
  (forall a b c u v, a ∈ l -> b ∈ l -> c ∈ l ->
     cmp a b = Some u -> cmp b c = Some v -> (u < 0)%Z -> (v < 0)%Z ->
     exists w, cmp a c = Some w /\ (w < 0)%Z) /\
  (forall a b c u v, a ∈ l -> b ∈ l -> c ∈ l ->
     cmp a b = Some u -> cmp b c = Some v -> (0 < u)%Z -> (0 < v)%Z ->
     exists w, cmp a c = Some w /\ (0 < w)%Z).

(** What the language guarantees of a runtime's sort: on a consistent
    comparator it returns the stable sort.  On any other comparator the
    order is implementation-defined, and nothing is said. *)
Definition conforming
    (sorter : (flow -> flow -> option Z) -> list flow -> list flow) : Prop :=
  forall cmp l, consistent cmp l -> sorter cmp l = stable_sort cmp l.

Section Sorting.

(** [new Date(v)] coerced to a number by the subtraction: the time value in
    milliseconds, [None] for an invalid date (NaN).  The runtime's, hence a
    parameter. *)
Variable Date : json -> option Z.

(** [array.sort(comparefn)], the runtime's: which order it returns when the
    comparator answers NaN for some pair is not fixed by the language, hence
    a parameter; [conforming] is what is known of it. *)
Variable Array_sort : (flow -> flow -> option Z) -> list flow -> list flow.

(** [(a, b) => new Date(b.timestamp || b.created_at)
               - new Date(a.timestamp || a.created_at)]
    The difference of two time values, NaN if one of the dates is invalid.
    The difference is taken exactly; the floating-point one has the same
    sign, and a sort reads nothing but the sign. *)
Definition compareFn (a b : flow) : option Z :=
  match Date (or_else (prop b "timestamp") (prop b "created_at")),
        Date (or_else (prop a "timestamp") (prop a "created_at")) with
  | Some tb, Some ta => Some (tb - ta)%Z
  | _, _ => None
  end.

(** The records of a response body on which the [try] block of
    [refreshStats] runs through: an array ([history.filter] exists) with no
    [null] element ([h.is_attack] does not throw). *)
Definition records (history : json) : option (list json) :=
  match history with
  | JArr l => if existsb nullish l then None else Some l
  | _ => None
  end.

(** From [const totalFlows = history.length] to the final [setFlows]; a
    TypeError on the way is thrown before the first [set...] and caught. *)
Definition applySnapshot (history : json) (st : state) : state :=
  match records history with
  | None => st
  | Some l =>
      let totalFlows := length l in
      let attacks := filter (fun h => truthy (get h "is_attack") = true) l in
      let totalAttacks := length attacks in
      let st1 := setStats (fun _ => {| total := totalFlows; attacks := totalAttacks |}) st in
      let flowsFromHistory := fromHistory <$> l in
      setFlows (fun _ => take 200 (Array_sort compareFn flowsFromHistory)) st1
  end.

(** *** Asynchronous code

    An [async] function is a tree: it returns, throws, changes the state,
    or suspends on a remote call or on a timer. *)
Inductive proc (A : Type) : Type :=
| Ret (a : A)
| Throw (e : error)
| Call (r : request) (k : result -> proc A)
| Sleep (ms : nat) (k : proc A)
| Upd (f : state -> state) (k : proc A).

Arguments Ret {A} a.
Arguments Throw {A} e.
Arguments Call {A} r k.
Arguments Sleep {A} ms k.
Arguments Upd {A} f k.

Fixpoint bind {A B : Type} (p : proc A) (f : A -> proc B) : proc B :=
  match p with
  | Ret a => f a
  | Throw e => Throw e
  | Call r k => Call r (fun x => bind (k x) f)
  | Sleep ms k => Sleep ms (bind k f)
  | Upd g k => Upd g (bind k f)
  end.

(** [try { p } catch (error) { h error }] *)
Fixpoint try_catch {A : Type} (p : proc A) (h : error -> proc A) : proc A :=
  match p with
  | Ret a => Ret a
  | Throw e => h e
  | Call r k => Call r (fun x => try_catch (k x) h)
  | Sleep ms k => Sleep ms (try_catch k h)
  | Upd g k => Upd g (try_catch k h)
  end.

Notation "x <- p ;; q" := (bind p (fun x => q))
  (at level 100, p at next level, right associativity).
Notation "p ;; q" := (bind p (fun _ => q))
  (at level 100, right associativity).

(** [await api.get(...)], [await api.post(...)]: the response body. *)
Definition await_api (r : request) : proc json :=
  Call r (fun res => match res with
                     | Resolved data => Ret data
                     | Rejected e => Throw e
                     end).

(** [await new Promise(resolve => setTimeout(resolve, ms))] *)
Definition delay (ms : nat) : proc unit := Sleep ms (Ret tt).

Definition upd (f : state -> state) : proc unit := Upd f (Ret tt).

Definition when (b : bool) (p : proc unit) : proc unit :=
  if b then p else Ret tt.

(** [checkSnifferStatus]: memoised with empty dependencies, so the
    [selectedInterface] it reads is the one of the first render, ['']. *)
Definition checkSnifferStatus : proc json :=
  let selectedInterface := JStr "" in
  try_catch
    (data <- await_api GetHealth ;;
     if nullish data then Throw TypeError else
     let running := or_else (get data "sniffer_running") (JBool false) in
     upd (setIsMonitoring (truthy running)) ;;
     upd (setInterfaceInfo
            {| interface := get data "interface";
               available := or_else (get data "available_interfaces") (JArr []);
               exists_ := get data "interface_exists";
               active_flows := or_else (get data "active_flows") zero |}) ;;
     upd (setSnifferStats (or_else (get data "sniffer_stats") (JObj ∅))) ;;
     when (negb (truthy selectedInterface) && truthy (get data "interface"))
          (upd (setSelectedInterface (get data "interface"))) ;;
     Ret running)
    (fun _ => Ret (JBool false)).

Definition refreshStats : proc unit :=
  try_catch
    (history <- await_api GetHistory ;;
     upd (applySnapshot history))
    (fun _ => Ret tt).

(** What a render closes over. *)
Record closure := mkClosure {
  c_isMonitoring : bool;
  c_isConnected : bool;
  c_selectedInterface : json
}.

Definition render (st : state) : closure :=
  {| c_isMonitoring := isMonitoring st;
     c_isConnected := isConnected st;
     c_selectedInterface := selectedInterface st |}.

Definition startMonitoring (c : closure) : proc unit :=
  try_catch
    (refreshStats ;;
     data <- await_api PostStart ;;
     delay 1000 ;;
     actualStatus <- checkSnifferStatus ;;
     if nullish data then Throw TypeError else
     let status := get data "status" in
     if str_is status "started" && truthy actualStatus then
       upd (setIsMonitoring true) ;;
       when (negb (c_isConnected c)) (upd connect) ;;
       refreshStats
     else if str_is status "warning" || str_is status "failed"
             || negb (truthy actualStatus) then
       upd (setIsMonitoring false) ;;
       let message := or_else (get data "message") (JStr sniffer_failed_text) in
       upd (show_alert (StartWarning message))
     else
       upd (setIsMonitoring (truthy actualStatus)) ;;
       when (truthy actualStatus && negb (c_isConnected c)) (upd connect))
    (fun error =>
       upd (setIsMonitoring false) ;;
       upd (show_alert (StartFailed (describe error)))).

Definition stopMonitoring : proc unit :=
  try_catch
    (await_api PostStop ;;
     upd (setIsMonitoring false))
    (fun error => upd (show_alert (StopFailed (describe error)))).

Definition changeInterface (c : closure) (newInterface : string) : proc unit :=
  if negb (truthy (JStr newInterface)) || str_is (c_selectedInterface c) newInterface
  then Ret tt
  else
    let wasMonitoring := c_isMonitoring c in
    try_catch
      (when wasMonitoring (stopMonitoring ;; delay 500) ;;
       await_api (PostInterface newInterface) ;;
       upd (setSelectedInterface (JStr newInterface)) ;;
       when wasMonitoring (delay 500 ;; startMonitoring c) ;;
       upd (show_alert (InterfaceChanged newInterface)))
      (fun error => upd (show_alert (ChangeFailed (describe error)))).

(** The callback of the 3 s interval, set up by a render with
    [isMonitoring] true. *)
Definition poll (c : closure) : proc unit :=
  status <- checkSnifferStatus ;;
  when (c_isMonitoring c && negb (truthy status)) (upd (setIsMonitoring false)).

(** *** Running one operation against a scripted remote

    [remote n r] is the outcome of request [r] when it is the [n]-th
    request issued.  Timers simply elapse. *)
Fixpoint exec {A : Type} (remote : nat -> request -> result)
    (p : proc A) (st : state) : state * (error + A) :=
  match p with
  | Ret a => (st, inr a)
  | Throw e => (st, inl e)
  | Call r k => exec remote (k (remote (length (requests st)) r)) (issue r st)
  | Sleep _ k => exec remote k st
  | Upd f k => exec remote k (f st)
  end.

(** *** The event loop: operations in flight *)

Inductive op :=
| Start
| Stop
| ChangeInterface (name : string)
| Poll.

Definition code (o : op) (c : closure) : proc unit :=
  match o with
  | Start => startMonitoring c
  | Stop => stopMonitoring
  | ChangeInterface name => changeInterface c name
  | Poll => poll c
  end.

Definition is_control_op (o : op) : bool :=
  match o with
  | Poll => false
  | _ => true
  end.

(** Where a started operation is waiting. *)
Inductive pending :=
| AwaitReply (r : request) (k : result -> proc unit)
| AwaitTimer (ms : nat) (k : proc unit)
| Finished.

(** Run up to the next [await] that really suspends. *)
Fixpoint settle (p : proc unit) (st : state) : state * pending :=
  match p with
  | Ret _ | Throw _ => (st, Finished)
  | Call r k => (issue r st, AwaitReply r k)
  | Sleep ms k => (st, AwaitTimer ms k)
  | Upd f k => settle k (f st)
  end.

Record world := mkWorld {
  page : state;
  tasks : list (op * pending)     (* every operation started so far *)
}.

Definition boot : world := {| page := init; tasks := [] |}.

Inductive event :=
| Invoke (o : op)                 (* a click, a select change, an interval tick *)
| Reply (i : nat) (res : result)  (* the remote call of task [i] settles *)
| Wake (i : nat).                 (* the timer of task [i] elapses *)

Definition step (e : event) (w : world) : option world :=
  match e with
  | Invoke o =>
      let '(st, pd) := settle (code o (render (page w))) (page w) in
      Some {| page := st; tasks := tasks w ++ [(o, pd)] |}
  | Reply i res =>
      match tasks w !! i with
      | Some (o, AwaitReply _ k) =>
          let '(st, pd) := settle (k res) (page w) in
          Some {| page := st; tasks := <[i := (o, pd)]> (tasks w) |}
      | _ => None
      end
  | Wake i =>
      match tasks w !! i with
      | Some (o, AwaitTimer _ k) =>
          let '(st, pd) := settle k (page w) in
          Some {| page := st; tasks := <[i := (o, pd)]> (tasks w) |}
      | _ => None
      end
  end.

Fixpoint run (evs : list event) (w : world) : option world :=
  match evs with
  | [] => Some w
  | e :: rest =>
      match step e w with
      | Some w' => run rest w'
      | None => None
      end
  end.

Definition unfinished (t : op * pending) : bool :=
  match t with
  | (_, Finished) => false
  | (o, _) => is_control_op o
  end.

(** The control operations that have started and not yet finished. *)
Definition in_flight (w : world) : list op :=
  fst <$> filter (fun t => unfinished t = true) (tasks w).

(** An operation that runs with nothing else going on: each of its
    requests is answered by the remote before anything else happens, each
    of its timers elapses. *)
Inductive alone (remote : nat -> request -> result) : state * pending -> state -> Prop :=
| alone_finished st :
    alone remote (st, Finished) st
| alone_reply st r k st' :
    alone remote (settle (k (remote (length (requests st) - 1) r)) st) st' ->
    alone remote (st, AwaitReply r k) st'
| alone_wake st ms k st' :
    alone remote (settle k st) st' ->
    alone remote (st, AwaitTimer ms k) st'.

(** What the rendered page lets the user do: the Start button is shown
    when [!isMonitoring], the Stop button otherwise; the interface select
    is rendered when [interfaceInfo.available.length > 0], is disabled
    while [isMonitoring], and offers the available names. *)
Definition offered (st : state) (o : op) : bool :=
  match o with
  | Start => negb (isMonitoring st)
  | Stop => isMonitoring st
  | ChangeInterface name =>
      match interfaceInfo st with
      | Some info =>
          match available info with
          | JArr l => negb (isMonitoring st) && existsb (fun v => str_is v name) l
          | _ => false
          end
      | None => false
      end
  | Poll => isMonitoring st
  end.

End Sorting.

(** *** Vocabulary for the statements *)


(** Pushed events delivered one after the other, oldest first. *)
Definition pushAll (evs : list flow) (st : state) : state :=
  foldl (fun s data => applyPush data s) st evs.

(** The two sources of the aggregator. *)
Inductive input :=
| Pushed (data : flow)
| Snapshot (history : json).

Definition feed1 (Date : json -> option Z)
    (Array_sort : (flow -> flow -> option Z) -> list flow -> list flow)
    (i : input) (st : state) : state :=
  match i with
  | Pushed data => applyPush data st
  | Snapshot history => applySnapshot Date Array_sort history st
  end.

Definition feed (Date : json -> option Z)
    (Array_sort : (flow -> flow -> option Z) -> list flow -> list flow)
    (ins : list input) (st : state) : state :=
  foldl (fun s i => feed1 Date Array_sort i s) st ins.

(** The sort key of a flow, as the comparator computes it. *)
Definition time_of (Date : json -> option Z) (f : flow) : option Z :=
  Date (or_else (prop f "timestamp") (prop f "created_at")).

(** [a] is not older than [b], both dates being valid. *)
Definition not_older (Date : json -> option Z) (a b : flow) : Prop :=
  match time_of Date a, time_of Date b with
  | Some ta, Some tb => (tb <= ta)%Z
  | _, _ => False
  end.

(** [new Date(n)] for a number [n]: the time value is [n] truncated, valid
    up to 8.64e15 ms either side of the epoch.  Used for the examples, in
    which timestamps are epoch milliseconds; [new Date(undefined)] is
    invalid, and so is every other argument taken to be here. *)
Definition Date_epoch (v : json) : option Z :=
  match v with
  | JNum q =>
      let t := (Qnum q ÷ Zpos (Qden q))%Z in
      if (Z.abs t <=? 8640000000000000)%Z then Some t else None
  | _ => None
  end.

(** The outcome of the status poll as [checkSnifferStatus] returns it. *)
Definition polled_running (res : result) : bool :=
  match res with
  | Resolved data => truthy (get data "sniffer_running")
  | Rejected _ => false
  end.

(** The start action answered, and not with a warning or a failure. *)
Definition action_ok (res : result) : bool :=
  match res with
  | Resolved data =>
      negb (nullish data)
      && negb (str_is (get data "status") "warning")
      && negb (str_is (get data "status") "failed")
  | Rejected _ => false
  end.


(** The state an operation leaves behind. *)
Definition after {A : Type} (remote : nat -> request -> result)
    (p : proc A) (st : state) : state :=
  fst (exec remote p st).


(** The request an operation issues before it first suspends. *)
Definition first_request (c : closure) (o : op) : option request :=
  match o with
  | Start => Some GetHistory
  | Stop => Some PostStop
  | ChangeInterface name =>
      if negb (truthy (JStr name)) || str_is (c_selectedInterface c) name then None
      else Some (if c_isMonitoring c then PostStop else PostInterface name)
  | Poll => Some GetHealth
  end.

Definition summary (w : world) : list op * list request * bool :=
  (in_flight w, requests (page w), offered (page w) Start).

(** *** Sample data *)

Definition sample_event (n : nat) : flow :=
  <["src_port" := JNum (Z.of_nat n # 1)]>
    (<["is_attack" := JBool (Nat.even n)]>
       (<["binary_confidence" := JNum (9 # 10)]> ∅)).

Definition benign (n : Z) : flow :=
  <["timestamp" := JNum (n # 1)]>
    (<["is_attack" := JBool false]> (<["attack_type" := JStr "Benign"]> ∅)).

Definition portscan (n : Z) : flow :=
  <["timestamp" := JNum (n # 1)]>
    (<["is_attack" := JBool true]> (<["attack_type" := JStr "Port Scan"]> ∅)).

Definition record_at (t : Z) (attack : bool) : json :=
  JObj (<["created_at" := JNum (t # 1)]> (<["is_attack" := JBool attack]> ∅)).

Definition sample_history : json :=
  JArr [record_at 5 true; record_at 9 false; record_at 7 true].

Definition health (running : bool) : json :=
  JObj (<["sniffer_running" := JBool running]> (<["interface" := JStr "eth0"]> ∅)).

Definition started : json := JObj (<["status" := JStr "started"]> ∅).

Definition network_error : error :=
  {| err_detail := JUndef; err_message := JStr "Network Error" |}.


(** A remote that is unreachable. *)
Definition remote_down : nat -> request -> result :=
  fun _ _ => Rejected network_error.


(** A remote that answers "started" although the sniffer is not running. *)
Definition remote_not_really_started : nat -> request -> result :=
  fun _ r =>
    match r with
    | GetHealth => Resolved (health false)
    | GetHistory => Resolved sample_history
    | PostStart => Resolved started
    | PostStop => Resolved JNull
    | PostInterface _ => Resolved JNull
    end.



(** *** The filters of the page *)

(** [flows.filter(flow => ...)] for the current [filter].  The filter is
    ['all'], ['attacks'] or the attack type on the button that was clicked,
    here a string. *)
Definition filteredFlows (filter : string) (flows : list flow) : list flow :=
  List.filter
    (fun flow =>
       if String.eqb filter "all" then true
       else if String.eqb filter "attacks" then truthy (prop flow "is_attack")
       else str_is (prop flow "attack_type") filter)
    flows.

(** SameValueZero, the equality of a [Set].  Two parsed arrays or objects
    are never the same value: each flow comes out of its own [JSON.parse]
    (or is its own element of the parsed history), so no array or object
    is shared between two flows. *)
Definition same_value_zero (a b : json) : bool :=
  match a, b with
  | JUndef, JUndef => true
  | JNull, JNull => true
  | JBool x, JBool y => Bool.eqb x y
  | JNum p, JNum q => Qeq_bool p q
  | JStr s, JStr t => String.eqb s t
  | _, _ => false
  end.

(** [new Set(values)], spread back into an array: the values in the order
    in which they first occur. *)
Fixpoint set_values (acc : list json) (values : list json) : list json :=
  match values with
  | [] => acc
  | v :: rest =>
      set_values (if existsb (same_value_zero v) acc then acc else acc ++ [v]) rest
  end.

(** [[...new Set(flows.filter(f => f.is_attack).map(f => f.attack_type))]] *)
Definition uniqueAttackTypes (flows : list flow) : list json :=
  set_values []
    ((fun f => prop f "attack_type")
       <$> List.filter (fun f => truthy (prop f "is_attack")) flows).

(** A flow with both confidences. *)
Definition two_confidences : flow :=
  <["confidence" := JNum (3 # 10)]> (<["binary_confidence" := JNum (9 # 10)]> ∅).

(** A remote on which everything works and the sniffer is running. *)
Definition remote_fine : nat -> request -> result :=
  fun _ r =>
    match r with
    | GetHealth => Resolved (health true)
    | GetHistory => Resolved sample_history
    | PostStart => Resolved started
    | PostStop => Resolved JNull
    | PostInterface _ => Resolved JNull
    end.

(** The string [t] occurs at most once in [l]. *)
Definition once (t : string) (l : list json) : Prop :=
  forall i j, l !! i = Some (JStr t) -> l !! j = Some (JStr t) -> i = j.

(** The state a status check leaves when its request is answered by [res],
    and the value it returns. *)
Definition checked (res : result) (st : state) : state * json :=
  match res with
  | Resolved data =>
      if nullish data then (st, JBool false)
      else
        let st1 :=
          setSnifferStats (or_else (get data "sniffer_stats") (JObj ∅))
            (setInterfaceInfo
               {| interface := get data "interface";
                  available := or_else (get data "available_interfaces") (JArr []);
                  exists_ := get data "interface_exists";
                  active_flows := or_else (get data "active_flows") zero |}
               (setIsMonitoring (truthy (get data "sniffer_running")) st)) in
        (if truthy (get data "interface")
         then setSelectedInterface (get data "interface") st1 else st1,
         or_else (get data "sniffer_running") (JBool false))
  | Rejected _ => (st, JBool false)
  end.

(** A history that arrives most recent first, with a tie. *)
Definition ordered_history : list json :=
  [record_at 9 false; record_at 7 true; record_at 7 false; record_at 5 true].

End Monitor.

(** * Properties *)

(** ** The flow aggregator: pushes and snapshots *)

Module FlowFacts.
Import Monitor.

Lemma take_app_take {A} (n m : nat) (l k : list A) :
  n <= m -> take n (l ++ take m k) = take n (l ++ k).
Proof.
  revert n. induction l as [|x l IH]; intros n Hn; simpl.
  - rewrite take_take. f_equal. lia.
  - destruct n as [|n]; simpl; [done|]. f_equal. apply IH. lia.
Qed.

Lemma pushAll_snoc evs data st :
  pushAll (evs ++ [data]) st = applyPush data (pushAll evs st).
Proof. unfold pushAll. by rewrite foldl_app. Qed.

Lemma flows_pushAll evs st :
  evs <> [] ->
  flows (pushAll evs st) = take 200 (reverse (flowData <$> evs) ++ flows st).
Proof.
  induction evs as [|e evs IH] using rev_ind; intros Hne; [done|].
  rewrite pushAll_snoc, fmap_app, reverse_app. simpl.
  destruct evs as [|e0 evs0]; [done|].
  rewrite IH by done.
  change (flows (applyPush e ?s)) with (take 200 (flowData e :: flows s)).
  apply (take_app_take 200 200 [flowData e]). lia.
Qed.

Lemma stats_pushAll evs st :
  total (stats (pushAll evs st)) = total (stats st) + length evs /\
  attacks (stats (pushAll evs st)) =
    attacks (stats st) + length (filter (fun d => truthy (prop d "is_attack") = true) evs).
Proof.
  induction evs as [|e evs IH] using rev_ind; [simpl; lia|].
  rewrite pushAll_snoc, filter_app, !length_app. simpl.
  destruct IH as [-> ->]. rewrite filter_cons, filter_nil.
  destruct (truthy (prop e "is_attack")); case_decide; try done; simpl; split; lia.
Qed.

Lemma confidence_flowData data :
  prop (flowData data) "confidence" =
    if truthy (prop data "confidence") then prop data "confidence"
    else if truthy (prop data "binary_confidence") then prop data "binary_confidence"
    else zero.
Proof.
  unfold flowData, prop at 1. rewrite lookup_insert_eq. simpl.
  unfold or_else. destruct (truthy (prop data "confidence")) eqn:E; [by rewrite E|].
  destruct (truthy (prop data "binary_confidence")) eqn:E2; by rewrite ?E2.
Qed.

Lemma other_flowData data k :
  k <> "confidence" -> flowData data !! k = data !! k.
Proof. intros. unfold flowData. by rewrite lookup_insert_ne. Qed.

(** C6.  After more than 200 pushed events the view holds exactly 200
    flows: the last 200 events, each with its confidence normalised, the
    most recent first; the counters have grown by the number of events and
    by the number of those with a true [is_attack].  One push puts the
    normalised event in front, keeps 200, adds one to [total] and one to
    [attacks] exactly when [is_attack] is true; the normalised confidence
    is the event's own if true, else its [binary_confidence] if true, else
    0, and no other property changes. *)
Theorem push_window (evs : list flow) (st : state) :
  200 < length evs ->
  length (flows (pushAll evs st)) = 200 /\
  flows (pushAll evs st) = reverse (flowData <$> drop (length evs - 200) evs) /\
  total (stats (pushAll evs st)) = total (stats st) + length evs /\
  attacks (stats (pushAll evs st)) =
    attacks (stats st) + length (filter (fun d => truthy (prop d "is_attack") = true) evs) /\
  (forall data s,
     flows (applyPush data s) = take 200 (flowData data :: flows s) /\
     total (stats (applyPush data s)) = total (stats s) + 1 /\
     attacks (stats (applyPush data s)) =
       attacks (stats s) + (if truthy (prop data "is_attack") then 1 else 0) /\
     prop (flowData data) "confidence" =
       (if truthy (prop data "confidence") then prop data "confidence"
        else if truthy (prop data "binary_confidence") then prop data "binary_confidence"
        else zero) /\
     (forall k, k <> "confidence" -> flowData data !! k = data !! k)).
Proof.
  intros Hlen.
  assert (Hfl : flows (pushAll evs st) = reverse (flowData <$> drop (length evs - 200) evs)).
  { rewrite flows_pushAll by (intros ->; simpl in Hlen; lia).
    rewrite take_app_le by (rewrite length_reverse, length_fmap; lia).
    rewrite take_reverse, length_fmap, fmap_drop. done. }
  split; [|split; [done|]].
  - rewrite Hfl, length_reverse, length_fmap, length_drop. lia.
  - destruct (stats_pushAll evs st) as [Ht Ha].
    split; [done|]. split; [done|]. intros data s.
    repeat split; auto using confidence_flowData, other_flowData.
Qed.

Lemma push_window_witness :
  200 < length (sample_event <$> seq 0 201) /\
  length (flows (pushAll (sample_event <$> seq 0 201) init)) = 200.
Proof.
  split; [vm_compute; lia|].
  apply (push_window (sample_event <$> seq 0 201) init). vm_compute; lia.
Defined.

(** Three benign events, a port scan, one more benign event. *)
Example push_scenario :
  let st := pushAll [benign 1; benign 2; benign 3; portscan 4; benign 5] init in
  stats st = {| total := 5; attacks := 1 |} /\
  (fun f => prop f "timestamp") <$> flows st
    = [JNum (5 # 1); JNum (4 # 1); JNum (3 # 1); JNum (2 # 1); JNum (1 # 1)] /\
  (fun f => prop f "confidence") <$> flows st = [zero; zero; zero; zero; zero].
Proof. vm_compute. repeat split. Qed.

(** An explicit confidence of 0 is not kept when there is a binary one. *)
Example push_zero_confidence :
  prop (flowData (<["confidence" := JNum (0 # 1)]>
                    (<["binary_confidence" := JNum (9 # 10)]> ∅))) "confidence"
  = JNum (9 # 10).
Proof. vm_compute. reflexivity. Qed.

Section Snapshot.
Variable Date : json -> option Z.
Variable Array_sort : (flow -> flow -> option Z) -> list flow -> list flow.



Lemma compareFn_dates a b ta tb :
  time_of Date a = Some ta -> time_of Date b = Some tb ->
  compareFn Date a b = Some (tb - ta)%Z.
Proof. unfold time_of, compareFn. by intros -> ->. Qed.

(** On flows whose timestamps are all valid dates the comparator is
    consistent: it orders them by their time values. *)
Lemma compareFn_consistent l :
  Forall (fun f => is_Some (time_of Date f)) l -> consistent (compareFn Date) l.
Proof.
  intros Hl. rewrite Forall_forall in Hl.
  repeat split.
  - intros a b [ta Ha]%Hl [tb Hb]%Hl. rewrite (compareFn_dates _ _ _ _ Ha Hb). eauto.
  - intros a [ta Ha]%Hl. rewrite (compareFn_dates _ _ _ _ Ha Ha). f_equal. lia.
  - intros a b [ta Ha]%Hl [tb Hb]%Hl.
    rewrite (compareFn_dates _ _ _ _ Ha Hb), (compareFn_dates _ _ _ _ Hb Ha).
    intros [= H]. f_equal. lia.
  - intros a b c [ta Ha]%Hl [tb Hb]%Hl [tc Hc]%Hl.
    rewrite (compareFn_dates _ _ _ _ Ha Hb), (compareFn_dates _ _ _ _ Hb Hc),
      (compareFn_dates _ _ _ _ Ha Hc).
    intros [= H1] [= H2]. f_equal. lia.
  - intros a b c u v [ta Ha]%Hl [tb Hb]%Hl [tc Hc]%Hl.
    rewrite (compareFn_dates _ _ _ _ Ha Hb), (compareFn_dates _ _ _ _ Hb Hc),
      (compareFn_dates _ _ _ _ Ha Hc).
    intros [= <-] [= <-] Hu Hv. eexists. split; [done|lia].
  - intros a b c u v [ta Ha]%Hl [tb Hb]%Hl [tc Hc]%Hl.
    rewrite (compareFn_dates _ _ _ _ Ha Hb), (compareFn_dates _ _ _ _ Hb Hc),
      (compareFn_dates _ _ _ _ Ha Hc).
    intros [= <-] [= <-] Hu Hv. eexists. split; [done|lia].
Qed.












(** C8.  Whatever pushes and snapshots arrive, in whatever order, starting
    from the initial counters, [attacks] never exceeds [total]. *)
Theorem attacks_le_total (ins : list input) :
  attacks (stats (feed Date Array_sort ins init)) <= total (stats (feed Date Array_sort ins init)).
Proof.
  induction ins as [|i ins IH] using rev_ind; [simpl; lia|].
  unfold feed in *. rewrite foldl_app. simpl.
  destruct i as [data|history]; simpl.
  - destruct (truthy (prop data "is_attack")); lia.
  - unfold applySnapshot. destruct (records history); [|done]. simpl.
    apply length_filter.
Qed.

End Snapshot.



Example snapshot_order :
  (fun f => prop f "timestamp") <$> flows (applySnapshot Date_epoch stable_sort sample_history init)
  = [JNum (9 # 1); JNum (7 # 1); JNum (5 # 1)].
Proof. vm_compute. reflexivity. Qed.

Example snapshot_after_pushes :
  stats (feed Date_epoch stable_sort [Pushed (portscan 1); Pushed (benign 2); Snapshot sample_history;
                          Pushed (portscan 3)] init)
  = {| total := 4; attacks := 3 |}.
Proof. vm_compute. reflexivity. Qed.

End FlowFacts.

(** ** The control operations, one at a time *)

Module ControlFacts.
Import Monitor.

Lemma exec_bind {A B} remote (p : proc A) (f : A -> proc B) st :
  exec remote (bind p f) st =
    match exec remote p st with
    | (st1, inr a) => exec remote (f a) st1
    | (st1, inl e) => (st1, inl e)
    end.
Proof.
  revert st. induction p as [a|e|r k IH|ms k IH|g k IH]; intros st; simpl; auto.
Qed.

Lemma exec_try_catch {A} remote (p : proc A) (h : error -> proc A) st :
  exec remote (try_catch p h) st =
    match exec remote p st with
    | (st1, inr a) => (st1, inr a)
    | (st1, inl e) => exec remote (h e) st1
    end.
Proof.
  revert st. induction p as [a|e|r k IH|ms k IH|g k IH]; intros st; simpl; auto.
Qed.

Lemma exec_await_api remote r st :
  exec remote (await_api r) st =
    (issue r st,
     match remote (length (requests st)) r with
     | Resolved data => inr data
     | Rejected e => inl e
     end).
Proof. simpl. by destruct (remote _ r). Qed.

Lemma exec_delay {remote} ms st : exec remote (delay ms) st = (st, inr tt).
Proof. reflexivity. Qed.

Lemma exec_upd {remote} f st : exec remote (upd f) st = (f st, inr tt).
Proof. reflexivity. Qed.

(** [exec] is the event loop with the operation alone in it. *)
Lemma exec_alone remote (p : proc unit) st :
  alone remote (settle p st) (fst (exec remote p st)).
Proof.
  revert st. induction p as [a|e|r k IH|ms k IH|g k IH]; intros st; simpl.
  - constructor.
  - constructor.
  - constructor. simpl. rewrite length_app. simpl.
    replace (length (requests st) + 1 - 1) with (length (requests st)) by lia.
    apply IH.
  - constructor. apply IH.
  - apply IH.
Qed.

Ltac exec_go :=
  repeat (rewrite ?exec_bind, ?exec_upd, ?exec_delay;
          cbn [exec when negb andb orb]; cbv beta iota).

#[local] Arguments checkSnifferStatus : simpl never.
#[local] Arguments refreshStats : simpl never.

Section Control.
Variable Date : json -> option Z.
Variable Array_sort : (flow -> flow -> option Z) -> list flow -> list flow.
Variable remote : nat -> request -> result.

(** What a history refresh leaves alone. *)
Lemma applySnapshot_frame history st :
  isMonitoring (applySnapshot Date Array_sort history st) = isMonitoring st /\
  alerts (applySnapshot Date Array_sort history st) = alerts st /\
  requests (applySnapshot Date Array_sort history st) = requests st /\
  connects (applySnapshot Date Array_sort history st) = connects st.
Proof. unfold applySnapshot. by destruct (records history). Qed.







(** C10.  When the stop call is rejected, [isMonitoring], the view and the
    counters are what they were; the failure is shown and nothing else
    happened. *)
Theorem stop_failure_keeps_state (st : state) (e : error) :
  remote (length (requests st)) PostStop = Rejected e ->
  let st' := after remote stopMonitoring st in
  isMonitoring st' = isMonitoring st /\
  flows st' = flows st /\
  stats st' = stats st /\
  alerts st' = alerts st ++ [StopFailed (describe e)] /\
  requests st' = requests st ++ [PostStop].
Proof.
  intros H. unfold after. simpl. by rewrite H.
Qed.

(** The transition to stopped comes with the answer, and only with it. *)
Lemma stop_success (st : state) (data : json) :
  remote (length (requests st)) PostStop = Resolved data ->
  let st' := after remote stopMonitoring st in
  isMonitoring st' = false /\
  flows st' = flows st /\
  stats st' = stats st /\
  alerts st' = alerts st.
Proof.
  intros H. unfold after. simpl. by rewrite H.
Qed.

Lemma stop_pending (st : state) :
  exists k, settle stopMonitoring st = (issue PostStop st, AwaitReply PostStop k).
Proof. by eexists. Qed.

End Control.

Lemma stop_failure_keeps_state_witness :
  remote_down (length (requests (setIsMonitoring true init))) PostStop
    = Rejected network_error /\
  isMonitoring (after remote_down stopMonitoring (setIsMonitoring true init)) = true.
Proof.
  split; [reflexivity|].
  apply (stop_failure_keeps_state remote_down (setIsMonitoring true init) network_error).
  reflexivity.
Defined.



Example start_unconfirmed :
  let st' := after remote_not_really_started (startMonitoring Date_epoch stable_sort (render init)) init in
  isMonitoring st' = false /\
  alerts st' = [StartWarning (JStr sniffer_failed_text)] /\
  requests st' = [GetHistory; PostStart; GetHealth].
Proof. vm_compute. repeat split. Qed.

Example changeInterface_same_name :
  let st := setSelectedInterface (JStr "eth0") (setIsMonitoring true init) in
  after remote_down (changeInterface Date_epoch stable_sort (render st) "eth0") st = st.
Proof. reflexivity. Qed.

End ControlFacts.

(** ** The control operations, overlapping *)

Module LockFacts.
Import Monitor.

Lemma in_flight_snoc w st o pd :
  in_flight (mkWorld st (tasks w ++ [(o, pd)])) =
  in_flight w ++ (if unfinished (o, pd) then [o] else []).
Proof.
  unfold in_flight. cbn [tasks]. rewrite filter_app, fmap_app. f_equal.
  rewrite filter_cons, filter_nil. destruct (unfinished (o, pd)); by case_decide.
Qed.

(** C1, as the code has it.  There is no operation lock.  Invoking start,
    stop or changeInterface is never refused, whatever is in flight: the
    operation begins at once, its first remote request is issued before it
    first suspends, and it joins the operations in flight (a
    changeInterface to the empty name or to the selected interface
    returns at once and changes nothing). *)
Theorem invoke_never_rejected (Date : json -> option Z)
    (Array_sort : (flow -> flow -> option Z) -> list flow -> list flow)
    (w : world) (o : op) :
  exists st pd,
    step Date Array_sort (Invoke o) w = Some (mkWorld st (tasks w ++ [(o, pd)])) /\
    match first_request (render (page w)) o with
    | Some r =>
        requests st = requests (page w) ++ [r] /\
        (exists k, pd = AwaitReply r k) /\
        in_flight (mkWorld st (tasks w ++ [(o, pd)])) =
          in_flight w ++ (if is_control_op o then [o] else [])
    | None =>
        st = page w /\ pd = Finished /\
        in_flight (mkWorld st (tasks w ++ [(o, pd)])) = in_flight w
    end.
Proof.
  cbn [step].
  destruct (settle (code Date Array_sort o (render (page w))) (page w)) as [st pd] eqn:E.
  exists st, pd. split; [done|]. rewrite in_flight_snoc.
  destruct o as [| |name|]; cbn [first_request code] in *.
  - simpl in E. injection E as <- <-. repeat split; eauto.
  - simpl in E. injection E as <- <-. repeat split; eauto.
  - unfold changeInterface in E.
    destruct (negb (truthy (JStr name)) || str_is (c_selectedInterface (render (page w))) name).
    + simpl in E. injection E as <- <-. by rewrite app_nil_r.
    + destruct (c_isMonitoring (render (page w))); simpl in E; injection E as <- <-;
        repeat split; eauto.
  - simpl in E. injection E as <- <-. simpl. rewrite app_nil_r. repeat split; eauto.
Qed.

(** Start is clicked twice before the first history fetch has come back:
    the page still offers the button, both starts are in flight, and their
    requests reach the remote interleaved. *)
Lemma second_start_accepted :
  summary <$> run Date_epoch stable_sort [Invoke Start] boot
    = Some ([Start], [GetHistory], true) /\
  summary <$> run Date_epoch stable_sort [Invoke Start; Invoke Start] boot
    = Some ([Start; Start], [GetHistory; GetHistory], true) /\
  summary <$> run Date_epoch stable_sort
      [Invoke Start; Invoke Start;
       Reply 0 (Resolved (JArr [])); Reply 1 (Resolved (JArr []))] boot
    = Some ([Start; Start], [GetHistory; GetHistory; PostStart; PostStart], true) /\
  ~ (forall evs w, run Date_epoch stable_sort evs boot = Some w -> length (in_flight w) <= 1).
Proof.
  assert (Htwo : summary <$> run Date_epoch stable_sort [Invoke Start; Invoke Start] boot
                 = Some ([Start; Start], [GetHistory; GetHistory], true))
    by (vm_compute; reflexivity).
  split; [vm_compute; reflexivity|]. split; [exact Htwo|].
  split; [vm_compute; reflexivity|].
  intros H.
  destruct (run Date_epoch stable_sort [Invoke Start; Invoke Start] boot) as [w|] eqn:E; [|discriminate].
  specialize (H _ _ E). injection Htwo as Hw _ _. rewrite Hw in H. simpl in H. lia.
Qed.

End LockFacts.

(** ** The channel *)

Module ChannelFacts.
Import Channel.

(** *** The subscriber Set *)

Lemma live_app es fs : live (es ++ fs) = live es ++ live fs.
Proof. apply omap_app. Qed.

Lemma live_set_delete h es :
  live (set_delete h es) = filter (fun x => x <> h) (live es).
Proof.
  induction es as [|[x|] es IH]; simpl; [done| |done].
  unfold live in *. simpl. rewrite filter_cons.
  case_bool_decide as E; simpl.
  - inversion E; subst. rewrite decide_False by auto. done.
  - rewrite decide_True by congruence. by rewrite IH.
Qed.

Lemma NoDup_set_add h es : NoDup (live es) -> NoDup (live (set_add h es)).
Proof.
  intros Hnd. unfold set_add, set_has. case_bool_decide as E; [done|].
  rewrite live_app. simpl. apply NoDup_app. repeat split; auto.
  - intros x Hx ->%list_elem_of_singleton. done.
  - apply NoDup_singleton.
Qed.

Lemma NoDup_set_delete h es : NoDup (live es) -> NoDup (live (set_delete h es)).
Proof. intros Hnd. rewrite live_set_delete. by apply NoDup_filter. Qed.

Section Provider.
Variable url_ok : bool.
Variable body : handler -> list hstep.

Lemma connect_busy st i :
  wsRef st = Some i ->
  sockets st !! i = Some OPEN \/ sockets st !! i = Some CONNECTING ->
  connect url_ok st = st.
Proof. intros Hw [Hs|Hs]; unfold connect; by rewrite Hw, Hs. Qed.

Lemma subscribers_connect st : subscribers (connect url_ok st) = subscribers st.
Proof.
  unfold connect. destruct (wsRef st) as [i|]; [destruct (sockets st !! i) as [[]|]|];
    by destruct url_ok.
Qed.

Lemma subscribers_disconnect st : subscribers (disconnect st) = subscribers st.
Proof.
  unfold disconnect. destruct (reconnectTimeoutRef st); simpl.
  - destruct (wsRef st) as [i|]; simpl; [|done].
    unfold ws_close; simpl. by destruct (sockets st !! i) as [[]|].
  - destruct (wsRef st) as [i|]; simpl; [|done].
    unfold ws_close; simpl. by destruct (sockets st !! i) as [[]|].
Qed.

Lemma run_body_wf steps st :
  NoDup (subscribers st) -> NoDup (subscribers (run_body url_ok steps st)).
Proof.
  revert st. induction steps as [|[h|h| | |] steps IH]; intros st Hnd; simpl; auto.
  - apply IH. by apply NoDup_set_add.
  - apply IH. by apply NoDup_set_delete.
  - apply IH. by rewrite subscribers_connect.
  - apply IH. by rewrite subscribers_disconnect.
Qed.

Lemma forEach_wf fuel data idx st st' :
  forEach url_ok body fuel data idx st = Some st' ->
  NoDup (subscribers st) -> NoDup (subscribers st').
Proof.
  revert idx st. induction fuel as [|fuel IH]; intros idx st; simpl.
  - destruct (messageHandlersRef st !! idx); [done|]. by intros [= <-].
  - destruct (messageHandlersRef st !! idx) as [[h|]|]; [| |by intros [= <-]].
    + intros H Hnd. eapply IH; [exact H|]. by apply run_body_wf.
    + intros H Hnd. eapply IH; [exact H|done].
Qed.

Lemma step_wf fuel e st st' :
  step url_ok body fuel e st = Some st' ->
  NoDup (subscribers st) -> NoDup (subscribers st').
Proof.
  destruct e as [| |h|h|i|i parsed|i|i|t]; simpl.
  - intros [= <-]. by rewrite subscribers_connect.
  - intros [= <-]. by rewrite subscribers_disconnect.
  - intros [= <-]. apply NoDup_set_add.
  - intros [= <-]. apply NoDup_set_delete.
  - destruct (sockets st !! i) as [[]|]; try done. intros [= <-].
    unfold onopen; simpl. by destruct (reconnectTimeoutRef st).
  - destruct (sockets st !! i) as [[]|]; try done.
    destruct parsed as [data|]; simpl; [|by intros [= <-]].
    intros H Hnd. by eapply forEach_wf.
  - destruct (sockets st !! i) as [[]|]; try done; by intros [= <-].
  - destruct (sockets st !! i) as [[]|]; try done; by intros [= <-].
  - case_bool_decide; [|done]. intros [= <-]. by rewrite subscribers_connect.
Qed.

Lemma run_wf fuel evs st st' :
  run url_ok body fuel evs st = Some st' ->
  NoDup (subscribers st) -> NoDup (subscribers st').
Proof.
  revert st. induction evs as [|e evs IH]; intros st; simpl; [by intros [= <-]|].
  destruct (step url_ok body fuel e st) as [st1|] eqn:E; [|done].
  intros H Hnd. eapply IH; [exact H|]. by eapply step_wf.
Qed.

(** *** Dispatch over subscribers that leave the Set alone *)

Lemma run_body_quiet steps st :
  Forall (fun s => s = Raise) steps ->
  messageHandlersRef (run_body url_ok steps st) = messageHandlersRef st /\
  delivered (run_body url_ok steps st) = delivered st.
Proof. intros [|? ? ->]; done. Qed.

Lemma deliver_quiet data hs st :
  Forall (quiet body) hs ->
  messageHandlersRef (deliver url_ok body data hs st) = messageHandlersRef st /\
  delivered (deliver url_ok body data hs st) = delivered st ++ ((fun h => (h, data)) <$> hs).
Proof.
  intros Hq. revert st. induction Hq as [|h hs Hh _ IH]; intros st; simpl.
  - by rewrite app_nil_r.
  - destruct (IH (call_handler url_ok body h data st)) as [-> ->].
    unfold call_handler.
    destruct (run_body_quiet (body h) (log_delivery h data st) Hh) as [-> ->].
    simpl. by rewrite <- app_assoc.
Qed.

Lemma deliver_app data hs ks st :
  deliver url_ok body data (hs ++ ks) st = deliver url_ok body data ks (deliver url_ok body data hs st).
Proof. unfold deliver. apply foldl_app. Qed.

(** Walking [k] entries whose subscribers are quiet. *)
Lemma forEach_quiet_run fuel data k idx st :
  idx + k <= length (messageHandlersRef st) ->
  Forall (quiet body) (live (take k (drop idx (messageHandlersRef st)))) ->
  forEach url_ok body (k + fuel) data idx st =
  forEach url_ok body fuel data (idx + k)
    (deliver url_ok body data (live (take k (drop idx (messageHandlersRef st)))) st).
Proof.
  revert idx st. induction k as [|k IH]; intros idx st Hlen Hq.
  - simpl. by rewrite Nat.add_0_r.
  - destruct (lookup_lt_is_Some_2 (messageHandlersRef st) idx) as [e He]; [lia|].
    rewrite (drop_S _ _ _ He) in Hq |- *. cbn [take] in Hq |- *.
    cbn [Nat.add forEach]. rewrite He.
    replace (idx + S k) with (S idx + k) by lia.
    destruct e as [h|].
    + change (live (Some h :: ?l)) with (h :: live l) in Hq |- *.
      inversion_clear Hq as [|? ? Hh Hq'].
      assert (Hm : messageHandlersRef (call_handler url_ok body h data st) = messageHandlersRef st).
      { apply (run_body_quiet (body h) (log_delivery h data st) Hh). }
      cbn [deliver foldl]. fold (deliver url_ok body data).
      rewrite IH; rewrite Hm; (done || lia).
    + change (live (None :: ?l)) with (live l) in Hq |- *.
      rewrite IH by (done || lia). done.
Qed.

(** Every subscriber from [idx] on is quiet: the walk ends and calls
    exactly those. *)
Lemma forEach_quiet fuel data idx st :
  length (messageHandlersRef st) <= idx + fuel ->
  Forall (quiet body) (live (drop idx (messageHandlersRef st))) ->
  forEach url_ok body fuel data idx st =
  Some (deliver url_ok body data (live (drop idx (messageHandlersRef st))) st).
Proof.
  intros Hlen Hq.
  destruct (decide (idx <= length (messageHandlersRef st))) as [Hle|Hgt].
  - set (k := length (messageHandlersRef st) - idx).
    replace fuel with (k + (fuel - k)) by lia.
    assert (Ht : take k (drop idx (messageHandlersRef st)) = drop idx (messageHandlersRef st)).
    { apply take_ge. rewrite length_drop. lia. }
    rewrite forEach_quiet_run; rewrite ?Ht; [|lia|done].
    destruct (deliver_quiet data _ st Hq) as [Hm _].
    destruct (fuel - k); simpl; rewrite Hm, lookup_ge_None_2; (done || lia).
  - rewrite drop_ge by lia. simpl.
    destruct fuel; simpl; rewrite lookup_ge_None_2; (done || lia).
Qed.

(** Reaching a subscriber that sits behind quiet ones. *)
Lemma forEach_reach fuel data pre a post st :
  messageHandlersRef st = pre ++ Some a :: post ->
  Forall (quiet body) (live pre) ->
  forEach url_ok body (length pre + S fuel) data 0 st =
  forEach url_ok body fuel data (S (length pre))
    (call_handler url_ok body a data (deliver url_ok body data (live pre) st)).
Proof.
  intros He Hq.
  assert (Ht : take (length pre) (drop 0 (messageHandlersRef st)) = pre).
  { rewrite drop_0, He. apply take_app_length. }
  rewrite forEach_quiet_run; rewrite ?Ht; [|rewrite He, length_app; simpl; lia|done].
  destruct (deliver_quiet data _ st Hq) as [Hm _].
  cbn [forEach Nat.add]. rewrite Hm, He.
  rewrite list_lookup_middle by done. done.
Qed.

Lemma receivers_spec st st' hs data :
  delivered st' = delivered st ++ ((fun h => (h, data)) <$> hs) ->
  receivers st st' = hs.
Proof.
  intros H. unfold receivers, received. rewrite H, drop_app_length.
  rewrite <- list_fmap_compose. apply list_fmap_id.
Qed.

(** C3, as the code has it.  Dispatch walks the live subscriber Set; no
    snapshot is taken.  When no subscriber touches the Set while the
    message is dispatched, the subscribers at arrival are called, once
    each, in subscription order.  When one of them subscribes a new handler
    during the dispatch, that handler is called for the in-flight message
    too, after the others; when one of them unsubscribes a handler whose
    turn has not come, that handler is not called. *)
Theorem dispatch_on_live_set (data : json) (fuel : nat) (st : state) :
  length (messageHandlersRef st) < fuel ->
  (Forall (quiet body) (subscribers st) ->
   exists st',
     onmessage url_ok body fuel (Some data) st = Some st' /\
     receivers st st' = subscribers st) /\
  (forall pre a post b,
     messageHandlersRef st = pre ++ Some a :: post ->
     Forall (quiet body) (live pre ++ live post) ->
     body a = [Subscribe b] ->
     b ∉ subscribers st -> quiet body b ->
     exists st',
       onmessage url_ok body fuel (Some data) st = Some st' /\
       receivers st st' = subscribers st ++ [b]) /\
  (forall pre a post b,
     messageHandlersRef st = pre ++ Some a :: post ->
     Forall (quiet body) (live pre ++ live post) ->
     body a = [Unsubscribe b] ->
     exists st',
       onmessage url_ok body fuel (Some data) st = Some st' /\
       receivers st st' = live pre ++ a :: filter (fun h => h <> b) (live post)).
Proof.
  intros Hfuel. cbn [onmessage]. set (st0 := setLastMessage data st).
  assert (Hm0 : messageHandlersRef st0 = messageHandlersRef st) by done.
  assert (Hd0 : delivered st0 = delivered st) by done.
  split; [|split].
  - intros Hq. eexists. split.
    + apply forEach_quiet; [rewrite Hm0; lia|]. by rewrite drop_0.
    + destruct (deliver_quiet data (live (drop 0 (messageHandlersRef st0))) st0) as [_ Hd];
        [by rewrite drop_0|].
      eapply receivers_spec. rewrite Hd, Hd0, drop_0. done.
  - intros pre a post b He Hq Ha Hb Hqb.
    apply Forall_app in Hq as [Hpre Hpost].
    assert (Hlen : length (messageHandlersRef st) = length pre + S (length post)).
    { rewrite He, length_app. done. }
    replace fuel with (length pre + S (fuel - length pre - 1)) by lia.
    rewrite (forEach_reach _ data pre a post st0) by (done || by rewrite Hm0).
    destruct (deliver_quiet data (live pre) st0 Hpre) as [Hm1 Hd1].
    set (st1 := deliver url_ok body data (live pre) st0) in *.
    assert (Hm2 : messageHandlersRef (call_handler url_ok body a data st1)
                  = pre ++ Some a :: post ++ [Some b]).
    { unfold call_handler. rewrite Ha. simpl. rewrite Hm1, Hm0.
      unfold set_add, set_has. rewrite bool_decide_eq_false_2 by done.
      rewrite He, <- app_assoc. done. }
    assert (Hd2 : delivered (call_handler url_ok body a data st1) = delivered st1 ++ [(a, data)]).
    { unfold call_handler. rewrite Ha. done. }
    assert (Hdrop : drop (S (length pre)) (messageHandlersRef (call_handler url_ok body a data st1))
                    = post ++ [Some b]).
    { rewrite Hm2, cons_middle, app_assoc. apply drop_app_length'.
      rewrite length_app. simpl. lia. }
    eexists. split.
    + apply forEach_quiet.
      * rewrite Hm2, !length_app. simpl. rewrite length_app. simpl. lia.
      * rewrite Hdrop, live_app. apply Forall_app. split; [done|]. by constructor.
    + destruct (deliver_quiet data
                  (live (drop (S (length pre)) (messageHandlersRef (call_handler url_ok body a data st1))))
                  (call_handler url_ok body a data st1)) as [_ Hd3].
      { rewrite Hdrop, live_app. apply Forall_app. split; [done|]. by constructor. }
      eapply receivers_spec. rewrite Hd3, Hd2, Hd1, Hd0, Hdrop.
      unfold subscribers. rewrite He, !live_app, !fmap_app, <- !app_assoc. done.
  - intros pre a post b He Hq Ha.
    apply Forall_app in Hq as [Hpre Hpost].
    assert (Hlen : length (messageHandlersRef st) = length pre + S (length post)).
    { rewrite He, length_app. done. }
    replace fuel with (length pre + S (fuel - length pre - 1)) by lia.
    rewrite (forEach_reach _ data pre a post st0) by (done || by rewrite Hm0).
    destruct (deliver_quiet data (live pre) st0 Hpre) as [Hm1 Hd1].
    set (st1 := deliver url_ok body data (live pre) st0) in *.
    assert (Hm2 : messageHandlersRef (call_handler url_ok body a data st1)
                  = set_delete b pre ++ set_delete b [Some a] ++ set_delete b post).
    { unfold call_handler. rewrite Ha. simpl. rewrite Hm1, Hm0, He.
      unfold set_delete. rewrite fmap_app. done. }
    assert (Hd2 : delivered (call_handler url_ok body a data st1) = delivered st1 ++ [(a, data)]).
    { unfold call_handler. rewrite Ha. done. }
    assert (Hdrop : drop (S (length pre)) (messageHandlersRef (call_handler url_ok body a data st1))
                    = set_delete b post).
    { rewrite Hm2, app_assoc. apply drop_app_length'.
      rewrite length_app. unfold set_delete. rewrite !length_fmap. simpl. lia. }
    assert (Hq3 : Forall (quiet body) (live (set_delete b post))).
    { rewrite live_set_delete. apply Forall_forall.
      intros h [_ Hh]%list_elem_of_filter. rewrite Forall_forall in Hpost. auto. }
    eexists. split.
    + apply forEach_quiet.
      * rewrite Hm2, !length_app. unfold set_delete. rewrite !length_fmap. simpl. lia.
      * by rewrite Hdrop.
    + destruct (deliver_quiet data
                  (live (drop (S (length pre)) (messageHandlersRef (call_handler url_ok body a data st1))))
                  (call_handler url_ok body a data st1)) as [_ Hd3].
      { by rewrite Hdrop. }
      eapply receivers_spec. rewrite Hd3, Hd2, Hd1, Hd0, Hdrop, live_set_delete.
      rewrite !fmap_app, <- !app_assoc. done.
Qed.

Lemma sockets_deliver data hs st :
  Forall (quiet body) hs -> sockets (deliver url_ok body data hs st) = sockets st.
Proof.
  intros Hq. revert st. induction Hq as [|h hs Hh _ IH]; intros st; [done|].
  simpl. fold (deliver url_ok body data). rewrite IH. unfold call_handler.
  by destruct Hh as [|? ? ->].
Qed.

(** C9.  In a state reached from the initial one in which the current
    socket is connecting or open, [connect()] changes nothing: no socket is
    constructed and everything that follows is as if the call had not been
    made.  The subscriber Set holds no handler twice, so that, after two
    such calls, a message arriving on the open socket is delivered to each
    subscriber exactly once (the subscribers not touching the Set
    meanwhile), on the one socket there is. *)
Theorem connect_idempotent (fuel : nat) (evs : list event) (st : state) (i : nat) :
  run url_ok body fuel evs init = Some st ->
  wsRef st = Some i ->
  sockets st !! i = Some OPEN \/ sockets st !! i = Some CONNECTING ->
  connect url_ok st = st /\
  length (sockets (connect url_ok st)) = length (sockets st) /\
  (forall more, run url_ok body fuel (Connect :: more) st = run url_ok body fuel more st) /\
  NoDup (subscribers st) /\
  (forall data,
     sockets st !! i = Some OPEN ->
     Forall (quiet body) (subscribers st) ->
     length (messageHandlersRef st) <= fuel ->
     exists st',
       run url_ok body fuel [Connect; Connect; Message i (Some data)] st = Some st' /\
       received st st' = (fun h => (h, data)) <$> subscribers st /\
       sockets st' = sockets st).
Proof.
  intros Hrun Hws Hsock.
  pose proof (connect_busy st i Hws Hsock) as Hc.
  pose proof (run_wf fuel evs init st Hrun (NoDup_nil_2 : NoDup (subscribers init))) as Hnd.
  split; [done|]. split; [by rewrite Hc|]. split; [|split; [done|]].
  - intros more. cbn [run step]. by rewrite Hc.
  - intros data Hopen Hq Hfuel. cbn [run step]. rewrite !Hc, Hopen. cbn [onmessage].
    set (st0 := setLastMessage data st).
    rewrite (forEach_quiet fuel data 0 st0) by (done || by rewrite drop_0).
    eexists. split; [done|].
    destruct (deliver_quiet data (live (drop 0 (messageHandlersRef st0))) st0) as [_ Hd];
      [by rewrite drop_0|].
    rewrite drop_0 in *. split.
    + unfold received. rewrite Hd. apply drop_app_length.
    + by rewrite sockets_deliver.
Qed.

End Provider.

Lemma connect_idempotent_witness :
  run true nobody 8 [Connect; Opened 0; Sub 1; Sub 2] init
    = Some (mkState true JNull (Some 0) None [Some 1; Some 2] [OPEN] [] 0 [] 0) /\
  connect true (mkState true JNull (Some 0) None [Some 1; Some 2] [OPEN] [] 0 [] 0)
    = mkState true JNull (Some 0) None [Some 1; Some 2] [OPEN] [] 0 [] 0.
Proof.
  split; [reflexivity|].
  apply (connect_idempotent true nobody 8 [Connect; Opened 0; Sub 1; Sub 2] _ 0);
    [reflexivity | reflexivity | left; reflexivity].
Defined.

(** From any state with a live current socket, the teardown ends with one
    more socket than there was, and that socket is the current one. *)
Lemma teardown_reconnects (body : handler -> list hstep) (fuel : nat) (st : state) (i : nat) :
  wsRef st = Some i ->
  sockets st !! i = Some OPEN \/ sockets st !! i = Some CONNECTING ->
  exists st',
    run true body fuel (teardown st) st = Some st' /\
    length (sockets st') = S (length (sockets st)) /\
    wsRef st' = Some (length (sockets st)) /\
    sockets st' !! length (sockets st) = Some CONNECTING.
Proof.
  intros Hws Hsock. unfold teardown. rewrite Hws. cbn [run step].
  assert (Hi : i < length (sockets st)).
  { destruct Hsock as [H|H]; by apply lookup_lt_Some in H. }
  set (st1 := disconnect st).
  assert (H1 : sockets st1 = <[i := CLOSING]> (sockets st) /\ wsRef st1 = None
               /\ timerSeq st1 = timerSeq st).
  { subst st1. unfold disconnect.
    destruct (reconnectTimeoutRef st); simpl; rewrite Hws; simpl;
      unfold ws_close; simpl; destruct Hsock as [-> | ->]; done. }
  destruct H1 as (Hs1 & Hw1 & Ht1).
  clearbody st1. rewrite Hs1. rewrite list_lookup_insert_eq by done.
  set (st2 := onclose _).
  assert (H2 : sockets st2 = <[i := CLOSED]> (<[i := CLOSING]> (sockets st))
               /\ wsRef st2 = None /\ S (timerSeq st) ∈ timers st2).
  { subst st2. unfold onclose. simpl. rewrite Hw1, Ht1.
    split; [done|]. split; [done|]. apply elem_of_app. right. by apply list_elem_of_singleton. }
  destruct H2 as (Hs2 & Hw2 & Ht2). clearbody st2.
  rewrite bool_decide_eq_true_2 by done.
  eexists. split; [done|].
  unfold connect. simpl. rewrite Hw2. simpl. rewrite Hs2, length_app, !length_insert. simpl.
  split; [lia|]. split; [done|].
  rewrite lookup_app_r by (rewrite !length_insert; lia).
  rewrite !length_insert, Nat.sub_diag. done.
Qed.

(** C2, on the code.  [disconnect()] closes the socket and forgets it; the
    close event of that socket then arrives, [onclose] schedules a
    reconnect, and when the timer fires a new socket is constructed. *)
Theorem reconnect_after_disconnect :
  run true nobody 8 [Connect; Opened 0; Disconnect] init
    = Some (mkState false JNull None None [] [CLOSING] [] 0 [] 0) /\
  run true nobody 8 [Connect; Opened 0; Disconnect; Closed 0; TimerFired 1] init
    = Some (mkState false JNull (Some 1) (Some 1) [] [CLOSED; CONNECTING] [] 1 [] 0).
Proof. split; reflexivity. Qed.

(** The first subscriber subscribes a second one while the message is
    dispatched: the second one receives the message although it was not
    subscribed when the message arrived. *)
Lemma dispatch_not_snapshot :
  let st := mkState true JNull (Some 0) None [Some 1] [OPEN] [] 0 [] 0 in
  run true adds_two 8 [Connect; Opened 0; Sub 1] init = Some st /\
  subscribers st = [1] /\
  (exists st', onmessage true adds_two 8 (Some JNull) st = Some st' /\
               receivers st st' = [1; 2]) /\
  ~ (forall st', onmessage true adds_two 8 (Some JNull) st = Some st' ->
                 receivers st st' = subscribers st).
Proof.
  cbn zeta. split; [reflexivity|]. split; [reflexivity|]. split.
  - eexists. split; reflexivity.
  - intros H. specialize (H _ eq_refl). vm_compute in H. discriminate.
Qed.

Example dispatch_skips_unsubscribed :
  let st := mkState true JNull (Some 0) None [Some 1; Some 2; Some 3] [OPEN] [] 0 [] 0 in
  subscribers st = [1; 2; 3] /\
  exists st', onmessage true removes_two 8 (Some JNull) st = Some st' /\
              receivers st st' = [1; 3] /\
              subscribers st' = [1; 3].
Proof. cbn zeta. split; [reflexivity|]. eexists. repeat split; reflexivity. Qed.

Lemma dispatch_on_live_set_witness :
  let st := mkState true JNull (Some 0) None [Some 1; Some 3] [OPEN] [] 0 [] 0 in
  length (messageHandlersRef st) < 8 /\
  exists st', onmessage true adds_two 8 (Some JNull) st = Some st' /\
              receivers st st' = subscribers st ++ [2].
Proof.
  cbn zeta. split; [vm_compute; lia|].
  refine (proj1 (proj2 (dispatch_on_live_set true adds_two JNull 8 _ _)) [] 1 [Some 3] 2 _ _ _ _ _).
  - vm_compute; lia.
  - reflexivity.
  - repeat constructor.
  - reflexivity.
  - vm_compute. intros H. repeat (apply elem_of_cons in H as [H|H]; [discriminate|]).
    by apply elem_of_nil in H.
  - constructor.
Defined.

End ChannelFacts.

(** * Further properties *)

(** ** The session: sockets, flag and delivery *)

Module SessionFacts.
Import Channel.

Section Provider.
Variable url_ok : bool.
Variable body : handler -> list hstep.

(** *** One live socket *)

Lemma tidy_connect st : tidy st -> tidy (connect url_ok st).
Proof.
  intros Ht. unfold connect.
  match goal with |- tidy (if ?b then _ else _) => destruct b eqn:Hb end; [done|].
  destruct url_ok; [|exact Ht].
  intros j s; simpl; intros Hj Hne.
  assert (Hlt : j < length (sockets st)).
  { destruct (decide (j < length (sockets st))) as [|Hge]; [done|exfalso].
    rewrite lookup_app_r in Hj by lia.
    destruct (j - length (sockets st)) as [|k] eqn:Hk; [|by destruct k].
    apply Hne. f_equal. lia. }
  rewrite lookup_app_l in Hj by done.
  destruct (decide (wsRef st = Some j)) as [Hw|Hw]; [|by eapply Ht].
  rewrite Hw, Hj in Hb. destruct s; auto; done.
Qed.

Lemma tidy_disconnect st : tidy st -> tidy (disconnect st).
Proof.
  intros Ht. unfold disconnect.
  assert (Hany : forall st0, sockets st0 = sockets st -> wsRef st0 = wsRef st ->
            tidy (setIsConnected false
                    match wsRef st0 with
                    | Some i => set_wsRef None (ws_close i st0)
                    | None => st0
                    end)).
  { intros st0 Hs Hw. rewrite Hw. destruct (wsRef st) as [i|] eqn:Hws.
    - intros j s. unfold ws_close. rewrite Hs. simpl.
      destruct (sockets st !! i) as [[]|] eqn:Hi; simpl; rewrite ?Hs; intros Hj _.
      + destruct (decide (j = i)) as [->|Hji].
        * rewrite list_lookup_insert_eq in Hj by (by eapply lookup_lt_Some).
          injection Hj as <-. auto.
        * rewrite list_lookup_insert_ne in Hj by done.
          apply (Ht j s Hj). rewrite Hws. congruence.
      + destruct (decide (j = i)) as [->|Hji].
        * rewrite list_lookup_insert_eq in Hj by (by eapply lookup_lt_Some).
          injection Hj as <-. auto.
        * rewrite list_lookup_insert_ne in Hj by done.
          apply (Ht j s Hj). rewrite Hws. congruence.
      + destruct (decide (j = i)) as [->|Hji].
        * rewrite Hi in Hj. injection Hj as <-. auto.
        * apply (Ht j s Hj). rewrite Hws. congruence.
      + destruct (decide (j = i)) as [->|Hji].
        * rewrite Hi in Hj. injection Hj as <-. auto.
        * apply (Ht j s Hj). rewrite Hws. congruence.
      + destruct (decide (j = i)) as [->|Hji].
        * rewrite Hi in Hj. done.
        * apply (Ht j s Hj). rewrite Hws. congruence.
    - intros j s. simpl. rewrite Hs, Hw. intros Hj _. apply (Ht j s Hj). by rewrite Hws. }
  destruct (reconnectTimeoutRef st); by apply Hany.
Qed.

Lemma tidy_run_body steps st : tidy st -> tidy (run_body url_ok steps st).
Proof.
  revert st. induction steps as [|[h|h| | |] steps IH]; intros st Ht; simpl; auto.
  - apply IH. by apply tidy_connect.
  - apply IH. by apply tidy_disconnect.
Qed.

Lemma tidy_forEach fuel data idx st st' :
  forEach url_ok body fuel data idx st = Some st' -> tidy st -> tidy st'.
Proof.
  revert idx st. induction fuel as [|fuel IH]; intros idx st; simpl.
  - destruct (messageHandlersRef st !! idx); [done|]. by intros [= <-].
  - destruct (messageHandlersRef st !! idx) as [[h|]|]; [| |by intros [= <-]].
    + intros H Ht. eapply IH; [exact H|]. by apply tidy_run_body.
    + intros H Ht. eapply IH; [exact H|done].
Qed.

Lemma tidy_step fuel e st st' :
  step url_ok body fuel e st = Some st' -> tidy st -> tidy st'.
Proof.
  destruct e as [| |h|h|i|i parsed|i|i|t]; simpl.
  - intros [= <-]. apply tidy_connect.
  - intros [= <-]. apply tidy_disconnect.
  - by intros [= <-].
  - by intros [= <-].
  - destruct (sockets st !! i) as [[]|] eqn:Hi; try done. intros [= <-] Ht.
    assert (Hw : wsRef st = Some i).
    { destruct (decide (wsRef st = Some i)) as [|Hne]; [done|].
      destruct (Ht i _ Hi Hne); done. }
    unfold onopen. simpl.
    destruct (reconnectTimeoutRef st); intros j s; simpl; rewrite Hw;
      intros Hj Hne; (rewrite list_lookup_insert_ne in Hj by congruence);
      apply (Ht j s Hj); rewrite Hw; done.
  - destruct (sockets st !! i) as [[]|]; try done.
    destruct parsed as [data|]; simpl; [|by intros [= <-]].
    intros H Ht. by eapply tidy_forEach.
  - destruct (sockets st !! i) as [[]|]; try done; by intros [= <-].
  - assert (Hc : tidy st -> tidy (onclose (set_sockets (<[i:=CLOSED]> (sockets st)) st))).
    { intros Ht j s. unfold onclose. simpl. intros Hj Hne.
      destruct (decide (j = i)) as [->|Hji].
      - apply list_lookup_insert_Some in Hj as [(_ & <- & _)|[? _]]; [auto|done].
      - rewrite list_lookup_insert_ne in Hj by done. by apply (Ht j s Hj). }
    destruct (sockets st !! i) as [[]|]; try done; intros [= <-]; apply Hc.
  - case_bool_decide; [|done]. intros [= <-] Ht. by apply tidy_connect.
Qed.

Lemma tidy_run fuel evs st st' :
  run url_ok body fuel evs st = Some st' -> tidy st -> tidy st'.
Proof.
  revert st. induction evs as [|e evs IH]; intros st; simpl; [by intros [= <-]|].
  destruct (step url_ok body fuel e st) as [st1|] eqn:E; [|done].
  intros H Ht. eapply IH; [exact H|]. by eapply tidy_step.
Qed.

(** X1.  In every state reached from the initial one, a socket that is
    connecting or open is the current one, so at most one socket is live
    at any time, and a message can only arrive on the current socket. *)
Theorem one_live_socket (fuel : nat) (evs : list event) (st : state) :
  run url_ok body fuel evs init = Some st ->
  (forall i, live_socket st i -> wsRef st = Some i) /\
  (forall i j, live_socket st i -> live_socket st j -> i = j) /\
  (forall i parsed, is_Some (step url_ok body fuel (Message i parsed) st) ->
                    wsRef st = Some i).
Proof.
  intros Hrun.
  assert (Ht : tidy st).
  { eapply tidy_run; [exact Hrun|]. intros j s Hj. done. }
  assert (Hlive : forall i, live_socket st i -> wsRef st = Some i).
  { intros i Hl. destruct (decide (wsRef st = Some i)) as [|Hne]; [done|exfalso].
    destruct Hl as [Hl|Hl]; destruct (Ht i _ Hl Hne); done. }
  split; [done|]. split.
  - intros i j Hi Hj. apply Hlive in Hi, Hj. congruence.
  - intros i parsed [st' Hs]. apply Hlive. left. simpl in Hs.
    by destruct (sockets st !! i) as [[]|].
Qed.

(** *** Connected means open *)







(** *** Dispatch to subscribers that leave the provider alone *)

Lemma call_quiet data h st :
  quiet body h ->
  call_handler url_ok body h data st =
    mkState (isConnected st) (lastMessage st) (wsRef st) (reconnectTimeoutRef st)
      (messageHandlersRef st) (sockets st) (timers st) (timerSeq st)
      (delivered st ++ [(h, data)])
      (errors st + (if throws body h then 1 else 0)).
Proof.
  intros Hq. unfold call_handler, throws.
  destruct Hq as [|s steps -> _]; simpl.
  - by rewrite Nat.add_0_r.
  - unfold console_error. simpl. f_equal. lia.
Qed.

Lemma deliver_quiet_state data hs st :
  Forall (quiet body) hs ->
  deliver url_ok body data hs st =
    mkState (isConnected st) (lastMessage st) (wsRef st) (reconnectTimeoutRef st)
      (messageHandlersRef st) (sockets st) (timers st) (timerSeq st)
      (delivered st ++ ((fun h => (h, data)) <$> hs))
      (errors st + length (List.filter (throws body) hs)).
Proof.
  intros Hq. revert st. induction Hq as [|h hs Hh _ IH]; intros st.
  - simpl. rewrite app_nil_r, Nat.add_0_r. by destruct st.
  - change (deliver url_ok body data (h :: hs) st)
      with (deliver url_ok body data hs (call_handler url_ok body h data st)).
    rewrite IH, call_quiet by done.
    simpl. rewrite <- app_assoc. simpl. f_equal.
    destruct (throws body h); simpl; lia.
Qed.

Lemma onmessage_quiet fuel data st :
  Forall (quiet body) (subscribers st) ->
  length (messageHandlersRef st) <= fuel ->
  onmessage url_ok body fuel (Some data) st =
    Some (mkState (isConnected st) data (wsRef st) (reconnectTimeoutRef st)
            (messageHandlersRef st) (sockets st) (timers st) (timerSeq st)
            (delivered st ++ ((fun h => (h, data)) <$> subscribers st))
            (errors st + length (List.filter (throws body) (subscribers st)))).
Proof.
  intros Hq Hfuel. cbn [onmessage].
  rewrite ChannelFacts.forEach_quiet by (done || by rewrite drop_0).
  rewrite drop_0. by rewrite deliver_quiet_state.
Qed.

(** X3.  When a message is dispatched to subscribers that leave the
    provider alone, every subscriber is called, in subscription order,
    whether or not an earlier one threw; each exception is logged once, and
    the connection flag, the socket, the timers and the subscriber Set are
    what they were.  The message becomes [lastMessage]. *)
Theorem failure_is_isolated (fuel : nat) (data : json) (st : state) :
  Forall (quiet body) (subscribers st) ->
  length (messageHandlersRef st) <= fuel ->
  exists st',
    onmessage url_ok body fuel (Some data) st = Some st' /\
    receivers st st' = subscribers st /\
    errors st' = errors st + length (List.filter (throws body) (subscribers st)) /\
    isConnected st' = isConnected st /\
    wsRef st' = wsRef st /\
    sockets st' = sockets st /\
    timers st' = timers st /\
    subscribers st' = subscribers st /\
    lastMessage st' = data.
Proof.
  intros Hq Hfuel. eexists. split; [by apply onmessage_quiet|].
  split; [|done]. eapply ChannelFacts.receivers_spec. done.
Qed.



(** *** Subscribing and unsubscribing *)

Lemma subscribers_subscribe h st :
  subscribers (subscribe h st) =
    if bool_decide (h ∈ subscribers st) then subscribers st else subscribers st ++ [h].
Proof.
  unfold subscribe, subscribers, set_add, set_has. simpl.
  case_bool_decide; [done|]. by rewrite ChannelFacts.live_app.
Qed.

Lemma subscribers_unsubscribe h st :
  subscribers (unsubscribe h st) = filter (fun x => x <> h) (subscribers st).
Proof. apply ChannelFacts.live_set_delete. Qed.

Lemma filter_absent (h : handler) (l : list handler) :
  h ∉ l -> filter (fun x => x <> h) l = l.
Proof.
  induction l as [|x l IH]; [done|]. intros Hn.
  apply not_elem_of_cons in Hn as [Hx Hl].
  rewrite filter_cons, decide_True by done. by rewrite IH.
Qed.

(** X5.  [subscribe] makes the handler a subscriber and is idempotent;
    the function it returns removes that handler and no other;
    subscribing and then unsubscribing a handler that was not subscribed
    leaves the subscribers as they were; unsubscribing and subscribing
    again moves the handler to the end of the order. *)
Theorem subscribe_unsubscribe (h : handler) (st : state) :
  (h ∈ subscribers (subscribe h st)) /\
  subscribe h (subscribe h st) = subscribe h st /\
  (h ∉ subscribers (unsubscribe h st)) /\
  (forall k, k <> h -> (k ∈ subscribers (unsubscribe h st) <-> k ∈ subscribers st)) /\
  (h ∉ subscribers st -> subscribers (unsubscribe h (subscribe h st)) = subscribers st) /\
  subscribers (subscribe h (unsubscribe h st))
    = filter (fun x => x <> h) (subscribers st) ++ [h].
Proof.
  assert (Hin : h ∈ subscribers (subscribe h st)).
  { rewrite subscribers_subscribe. case_bool_decide; [done|].
    apply elem_of_app. right. by apply list_elem_of_singleton. }
  split; [done|]. split; [|split; [|split; [|split]]].
  - unfold subscribe at 1. unfold set_add, set_has.
    rewrite bool_decide_eq_true_2 by exact Hin. by destruct st.
  - rewrite subscribers_unsubscribe. intros [Hh _]%list_elem_of_filter. done.
  - intros k Hk. rewrite subscribers_unsubscribe, list_elem_of_filter. tauto.
  - intros Hn. rewrite subscribers_unsubscribe, subscribers_subscribe.
    rewrite bool_decide_eq_false_2 by done.
    rewrite filter_app, filter_absent by done.
    rewrite filter_cons, decide_False by auto. by rewrite app_nil_r.
  - rewrite subscribers_subscribe, subscribers_unsubscribe.
    rewrite bool_decide_eq_false_2; [done|].
    intros [Hh _]%list_elem_of_filter. done.
Qed.

(** *** Teardown *)

(** X6.  After [disconnect()] there is no current socket and no remembered
    timer, the flag is false, the remembered timer is no longer pending,
    the socket that was current is neither open nor connecting, and the
    subscribers are kept; a second [disconnect()] changes nothing. *)
Theorem disconnect_settles (st : state) :
  wsRef (disconnect st) = None /\
  reconnectTimeoutRef (disconnect st) = None /\
  isConnected (disconnect st) = false /\
  (forall t, reconnectTimeoutRef st = Some t -> t ∉ timers (disconnect st)) /\
  (forall i, wsRef st = Some i -> ~ live_socket (disconnect st) i) /\
  subscribers (disconnect st) = subscribers st /\
  disconnect (disconnect st) = disconnect st.
Proof.
  assert (Hw : wsRef (disconnect st) = None).
  { unfold disconnect. destruct (reconnectTimeoutRef st); simpl; by destruct (wsRef st) eqn:E. }
  assert (Hr : reconnectTimeoutRef (disconnect st) = None).
  { unfold disconnect. destruct (reconnectTimeoutRef st) eqn:E; simpl;
      destruct (wsRef st) as [i|]; simpl; try done;
      unfold ws_close; simpl; by destruct (sockets st !! i) as [[]|]. }
  assert (Hc : isConnected (disconnect st) = false) by done.
  split; [done|]. split; [done|]. split; [done|]. split; [|split; [|split]].
  - intros t Ht. unfold disconnect. rewrite Ht. simpl.
    assert (Hn : t ∉ filter (fun x => x <> t) (timers st)).
    { intros [Hx _]%list_elem_of_filter. done. }
    destruct (wsRef st) as [i|]; simpl; [|done].
    unfold ws_close; simpl. by destruct (sockets st !! i) as [[]|].
  - intros i Hi. unfold live_socket, disconnect.
    destruct (reconnectTimeoutRef st); simpl; rewrite Hi; simpl;
      unfold ws_close; simpl;
      destruct (sockets st !! i) as [[]|] eqn:Hs; simpl; rewrite ?Hs;
      rewrite ?list_lookup_insert_eq by (by eapply lookup_lt_Some);
      intros [?|?]; done.
  - apply ChannelFacts.subscribers_disconnect.
  - unfold disconnect at 1. rewrite Hr, Hw.
    destruct (disconnect st) as [c ? ? ? ? ? ? ? ? ?] eqn:E. simpl in *. by subst c.
Qed.

End Provider.

(** *** Reconnection *)

(** X7.  When the current socket closes, the reconnect timer fires and the
    new socket opens, the provider is connected again on the new socket,
    the old one is closed, no timer is remembered and the one that fired
    is no longer pending. *)
Theorem reconnect_restores (body : handler -> list hstep) (fuel : nat)
    (st : state) (i : nat) (s : readyState) :
  wsRef st = Some i ->
  sockets st !! i = Some s ->
  s <> CLOSED ->
  exists st',
    run true body fuel
      [Closed i; TimerFired (S (timerSeq st)); Opened (length (sockets st))] st = Some st' /\
    isConnected st' = true /\
    wsRef st' = Some (length (sockets st)) /\
    sockets st' = <[i := CLOSED]> (sockets st) ++ [OPEN] /\
    reconnectTimeoutRef st' = None /\
    timers st' = filter (fun t => t <> S (timerSeq st)) (timers st).
Proof.
  intros Hw Hs Hne. cbn [run step]. rewrite Hs.
  assert (Hi : i < length (sockets st)) by (by eapply lookup_lt_Some).
  set (st1 := onclose (set_sockets (<[i:=CLOSED]> (sockets st)) st)).
  assert (H1 : sockets st1 = <[i := CLOSED]> (sockets st) /\ wsRef st1 = Some i /\
               timers st1 = timers st ++ [S (timerSeq st)] /\
               reconnectTimeoutRef st1 = Some (S (timerSeq st))) by done.
  destruct H1 as (Hs1 & Hw1 & Ht1 & Hr1).
  assert (Hstep1 : match s with
                   | CLOSED => None
                   | _ => Some st1
                   end = Some st1) by (by destruct s).
  rewrite Hstep1. clearbody st1.
  rewrite bool_decide_eq_true_2
    by (rewrite Ht1; apply elem_of_app; right; by apply list_elem_of_singleton).
  set (st2 := connect true (expire (S (timerSeq st)) st1)).
  assert (H2 : sockets st2 = <[i := CLOSED]> (sockets st) ++ [CONNECTING] /\
               wsRef st2 = Some (length (sockets st)) /\
               timers st2 = filter (fun t => t <> S (timerSeq st)) (timers st1) /\
               reconnectTimeoutRef st2 = Some (S (timerSeq st))).
  { subst st2. unfold connect. simpl. rewrite Hw1, Hs1.
    rewrite list_lookup_insert_eq by done. simpl. by rewrite length_insert. }
  destruct H2 as (Hs2 & Hw2 & Ht2 & Hr2). clearbody st2.
  rewrite Hs2. rewrite lookup_app_r by (rewrite length_insert; lia).
  rewrite length_insert, Nat.sub_diag. simpl.
  eexists. split; [done|]. unfold onopen. simpl. rewrite Hr2. simpl.
  rewrite Hw2, Ht2, Ht1. split; [done|]. split; [done|]. split; [|split; [done|]].
  - rewrite insert_app_r_alt by (rewrite length_insert; lia).
    by rewrite length_insert, Nat.sub_diag.
  - rewrite filter_app, filter_cons, decide_False, filter_nil, app_nil_r by auto.
    apply list_filter_filter_l. done.
Qed.

(** *** A malformed URL *)

(** X8.  With a URL the WebSocket constructor rejects, no socket is ever
    constructed and no reconnect is ever scheduled: whatever the provider
    is asked to do, the flag stays false, nothing is delivered, and no
    socket or timer event can occur. *)
Theorem bad_url_never_connects (body : handler -> list hstep) (fuel : nat)
    (evs : list event) (st : state) :
  run false body fuel evs init = Some st ->
  sockets st = [] /\ wsRef st = None /\ isConnected st = false /\
  timers st = [] /\ delivered st = [] /\
  Forall (fun e => match e with
                   | Connect | Disconnect | Sub _ | Unsub _ => True
                   | _ => False
                   end) evs.
Proof.
  set (inv := fun s : state =>
         sockets s = [] /\ wsRef s = None /\ isConnected s = false /\
         timers s = [] /\ delivered s = []).
  enough (Hgen : forall s, inv s -> run false body fuel evs s = Some st ->
            inv st /\ Forall (fun e => match e with
                   | Connect | Disconnect | Sub _ | Unsub _ => True
                   | _ => False
                   end) evs).
  { intros Hrun. destruct (Hgen init) as [(?&?&?&?&?) ?]; [by repeat split|done|].
    by repeat split. }
  induction evs as [|e evs IH]; intros s Hinv; simpl.
  - intros [= <-]. by split.
  - destruct Hinv as (Hs & Hw & Hc & Ht & Hd).
    destruct (step false body fuel e s) as [s1|] eqn:E; [|done].
    intros Hrun.
    assert (inv s1 /\ match e with
                      | Connect | Disconnect | Sub _ | Unsub _ => True
                      | _ => False
                      end) as [Hinv1 He].
    { destruct e as [| |h|h|i|i parsed|i|i|t]; simpl in E.
      - injection E as <-. unfold inv, connect. rewrite Hw. simpl.
        by rewrite Hs, Hw, Ht, Hd.
      - injection E as <-. unfold inv, disconnect.
        destruct (reconnectTimeoutRef s); simpl; rewrite Hw; simpl;
          by rewrite Hs, Hw, Ht, Hd.
      - injection E as <-. unfold inv. simpl. by rewrite Hs, Hw, Hc, Ht, Hd.
      - injection E as <-. unfold inv. simpl. by rewrite Hs, Hw, Hc, Ht, Hd.
      - by rewrite Hs in E.
      - by rewrite Hs in E.
      - by rewrite Hs in E.
      - by rewrite Hs in E.
      - rewrite Ht in E. by rewrite bool_decide_eq_false_2 in E by apply not_elem_of_nil. }
    destruct (IH s1 Hinv1 Hrun) as [? ?]. split; [done|]. by constructor.
Qed.

Lemma one_live_socket_witness :
  let st := mkState false JNull (Some 1) (Some 1) [] [CLOSED; CONNECTING] [] 1 [] 0 in
  run true nobody 8 [Connect; Opened 0; Disconnect; Connect; Closed 0; TimerFired 1] init
    = Some st /\
  (forall i, live_socket st i -> wsRef st = Some i).
Proof.
  intros st. split; [vm_compute; reflexivity|].
  apply (one_live_socket true nobody 8
           [Connect; Opened 0; Disconnect; Connect; Closed 0; TimerFired 1] st).
  vm_compute. reflexivity.
Defined.


(** The converse fails: the close event of a socket that was torn down
    earlier clears the flag although the current socket is open. *)
Example late_close_clears_the_flag :
  let st := mkState false JNull (Some 1) (Some 1) [] [CLOSED; OPEN] [1] 1 [] 0 in
  run true nobody 8 [Connect; Opened 0; Disconnect; Connect; Opened 1; Closed 0] init
    = Some st /\
  isConnected st = false /\ wsRef st = Some 1 /\ sockets st !! 1 = Some OPEN.
Proof. vm_compute. repeat split. Qed.

Lemma failure_is_isolated_witness :
  Forall (quiet second_throws) (subscribers three_subscribers) /\
  length (messageHandlersRef three_subscribers) <= 8 /\
  exists st',
    onmessage true second_throws 8 (Some JNull) three_subscribers = Some st' /\
    receivers three_subscribers st' = [1; 2; 3] /\
    errors st' = 1 /\
    isConnected st' = true.
Proof.
  assert (Hq : Forall (quiet second_throws) (subscribers three_subscribers))
    by (repeat constructor).
  assert (Hf : length (messageHandlersRef three_subscribers) <= 8) by (simpl; lia).
  split; [exact Hq|]. split; [exact Hf|].
  destruct (failure_is_isolated true second_throws 8 JNull three_subscribers Hq Hf)
    as (st' & H1 & H2 & H3 & H4 & _).
  exists st'. repeat split; assumption.
Defined.


Lemma reconnect_restores_witness :
  wsRef three_subscribers = Some 0 /\
  sockets three_subscribers !! 0 = Some OPEN /\
  OPEN <> CLOSED /\
  exists st',
    run true nobody 8 [Closed 0; TimerFired 1; Opened 1] three_subscribers = Some st' /\
    isConnected st' = true /\
    wsRef st' = Some 1.
Proof.
  split; [reflexivity|]. split; [reflexivity|]. split; [discriminate|].
  destruct (reconnect_restores nobody 8 three_subscribers 0 OPEN eq_refl eq_refl)
    as (st' & H1 & H2 & H3 & _); [discriminate|].
  exists st'. repeat split; assumption.
Defined.

Lemma bad_url_never_connects_witness :
  let st := mkState false JNull None None [Some 1] [] [] 0 [] 2 in
  run false nobody 8 [Connect; Sub 1; Disconnect; Connect] init = Some st /\
  sockets st = [].
Proof.
  intros st. split; [vm_compute; reflexivity|].
  apply (bad_url_never_connects nobody 8 [Connect; Sub 1; Disconnect; Connect] st).
  vm_compute. reflexivity.
Defined.

End SessionFacts.

(** ** The view and its filters *)

Module ViewFacts.
Import Monitor.

(** X9.  Whatever pushes and snapshots arrive, the view never holds more
    than 200 flows. *)
Theorem view_is_bounded (Date : json -> option Z)
    (Array_sort : (flow -> flow -> option Z) -> list flow -> list flow)
    (ins : list input) :
  length (flows (feed Date Array_sort ins init)) <= 200.
Proof.
  induction ins as [|i ins IH] using rev_ind; [simpl; lia|].
  unfold feed in *. rewrite foldl_app. simpl.
  destruct i as [data|history]; simpl.
  - rewrite length_take. lia.
  - unfold applySnapshot. destruct (records history); [|done]. simpl.
    rewrite length_take. lia.
Qed.

Lemma filteredFlows_sublist filter fl : sublist (filteredFlows filter fl) fl.
Proof.
  unfold filteredFlows. induction fl as [|f fl IH]; simpl; [constructor|].
  match goal with |- context [if ?b then _ else _] => destruct b end;
    by constructor.
Qed.

Lemma elem_of_filteredFlows filter fl f :
  f ∈ filteredFlows filter fl <->
  f ∈ fl /\
  (if String.eqb filter "all" then true
   else if String.eqb filter "attacks" then truthy (prop f "is_attack")
   else str_is (prop f "attack_type") filter) = true.
Proof. unfold filteredFlows. rewrite !list_elem_of_In. apply filter_In. Qed.

Lemma str_is_true v s : str_is v s = true <-> v = JStr s.
Proof.
  destruct v; simpl; try (split; [done|intros [=]]).
  - split; [by intros ->%String.eqb_eq|]. intros [= ->]. apply String.eqb_refl.
Qed.

Lemma filter_twice {A} (p : A -> bool) (l : list A) :
  List.filter p (List.filter p l) = List.filter p l.
Proof.
  induction l as [|x l IH]; simpl; [done|].
  destruct (p x) eqn:E; simpl; rewrite ?E, IH; done.
Qed.

Lemma elem_of_type_filter t fl f :
  t <> "all" -> t <> "attacks" ->
  f ∈ filteredFlows t fl <-> f ∈ fl /\ prop f "attack_type" = JStr t.
Proof.
  intros Hall Hatt. rewrite elem_of_filteredFlows.
  destruct (String.eqb_spec t "all"); [done|].
  destruct (String.eqb_spec t "attacks"); [done|].
  by rewrite str_is_true.
Qed.

(** X10.  The filtered view is a subsequence of the view, in the same
    order, and filtering twice is filtering once.  ['all'] keeps
    everything; ['attacks'] keeps exactly the flows with a true
    [is_attack]; any other filter keeps exactly the flows whose
    [attack_type] is that string, attack or not. *)
Theorem filter_view (filter : string) (fl : list flow) :
  sublist (filteredFlows filter fl) fl /\
  filteredFlows filter (filteredFlows filter fl) = filteredFlows filter fl /\
  filteredFlows "all" fl = fl /\
  (forall f, f ∈ filteredFlows "attacks" fl <->
             f ∈ fl /\ truthy (prop f "is_attack") = true) /\
  (filter <> "all" -> filter <> "attacks" ->
   forall f, f ∈ filteredFlows filter fl <->
             f ∈ fl /\ prop f "attack_type" = JStr filter).
Proof.
  split; [apply filteredFlows_sublist|]. split; [|split; [|split]].
  - apply filter_twice.
  - unfold filteredFlows. simpl. induction fl as [|f fl IH]; simpl; [done|]. by rewrite IH.
  - intros f. by rewrite elem_of_filteredFlows.
  - intros Hall Hatt f. by apply elem_of_type_filter.
Qed.

(** **** The attack-type buttons *)

Lemma svz_str v t : same_value_zero v (JStr t) = true <-> v = JStr t.
Proof.
  destruct v; simpl; try (split; [done|intros [=]]).
  split; [by intros ->%String.eqb_eq|]. intros [= ->]. apply String.eqb_refl.
Qed.

Lemma svz_str_l v t : same_value_zero (JStr t) v = true <-> v = JStr t.
Proof.
  destruct v; simpl; try (split; [done|intros [=]]).
  split; [by intros ->%String.eqb_eq|]. intros [= ->]. apply String.eqb_refl.
Qed.

Lemma existsb_svz_str t acc :
  existsb (same_value_zero (JStr t)) acc = true <-> JStr t ∈ acc.
Proof.
  rewrite existsb_exists. setoid_rewrite svz_str_l. setoid_rewrite <- list_elem_of_In.
  split; [by intros (x & Hx & ->)|]. intros H. by exists (JStr t).
Qed.

Lemma elem_of_set_values t acc values :
  JStr t ∈ set_values acc values <-> JStr t ∈ acc \/ JStr t ∈ values.
Proof.
  revert acc. induction values as [|v values IH]; intros acc; simpl.
  - rewrite elem_of_nil. tauto.
  - rewrite IH, elem_of_cons.
    destruct (existsb (same_value_zero v) acc) eqn:E.
    + split; [tauto|]. intros [?|[Hv|?]]; [tauto| |tauto].
      left. subst v. by apply existsb_svz_str.
    + rewrite elem_of_app, list_elem_of_singleton. split; [|tauto].
      intros [[?|?]|?]; auto.
Qed.

Lemma once_set_values t acc values :
  once t acc -> once t (set_values acc values).
Proof.
  revert acc. induction values as [|v values IH]; intros acc Hacc; simpl; [done|].
  apply IH. destruct (existsb (same_value_zero v) acc) eqn:E; [done|].
  intros i j Hi Hj.
  assert (Hcase : forall k, (acc ++ [v]) !! k = Some (JStr t) -> v = JStr t -> k = length acc).
  { intros k Hk Hv. apply lookup_app_Some in Hk as [Hk|[? Hk]].
    - exfalso. subst v. apply not_true_iff_false in E. apply E.
      apply existsb_svz_str. by eapply list_elem_of_lookup_2.
    - destruct (k - length acc) as [|m] eqn:Em; [lia|by destruct m]. }
  apply lookup_app_Some in Hi as Hi'. apply lookup_app_Some in Hj as Hj'.
  destruct Hi' as [Hi'|[Hil Hi']], Hj' as [Hj'|[Hjl Hj']].
  - by apply Hacc.
  - assert (v = JStr t).
    { destruct (j - length acc) as [|m]; [by injection Hj'|by destruct m]. }
    rewrite (Hcase i Hi), (Hcase j Hj); done.
  - assert (v = JStr t).
    { destruct (i - length acc) as [|m]; [by injection Hi'|by destruct m]. }
    rewrite (Hcase i Hi), (Hcase j Hj); done.
  - assert (v = JStr t).
    { destruct (i - length acc) as [|m]; [by injection Hi'|by destruct m]. }
    rewrite (Hcase i Hi), (Hcase j Hj); done.
Qed.

(** X11.  A string is among the attack-type buttons exactly when some flow
    of the view with a true [is_attack] has it as [attack_type]; it is
    there once; and, unless it is ['all'] or ['attacks'], its button
    selects a non-empty list of flows, all of that type. *)
Theorem attack_type_buttons (fl : list flow) (t : string) :
  (JStr t ∈ uniqueAttackTypes fl <->
   exists f, f ∈ fl /\ truthy (prop f "is_attack") = true /\ prop f "attack_type" = JStr t) /\
  (forall i j, uniqueAttackTypes fl !! i = Some (JStr t) ->
               uniqueAttackTypes fl !! j = Some (JStr t) -> i = j) /\
  (JStr t ∈ uniqueAttackTypes fl -> t <> "all" -> t <> "attacks" ->
   filteredFlows t fl <> [] /\
   Forall (fun f => prop f "attack_type" = JStr t) (filteredFlows t fl)).
Proof.
  assert (Hin : JStr t ∈ uniqueAttackTypes fl <->
     exists f, f ∈ fl /\ truthy (prop f "is_attack") = true /\ prop f "attack_type" = JStr t).
  { unfold uniqueAttackTypes. rewrite elem_of_set_values, elem_of_nil, list_elem_of_fmap.
    split.
    - intros [[]|(f & Hf & Hin)]. exists f.
      apply list_elem_of_In, filter_In in Hin as [Hin Ha].
      by rewrite list_elem_of_In.
    - intros (f & Hf & Ha & Ht). right. exists f. split; [done|].
      apply list_elem_of_In, filter_In. by rewrite <- list_elem_of_In. }
  split; [done|]. split.
  - apply once_set_values. intros i j Hi. done.
  - intros (f & Hf & Ha & Ht)%Hin Hall Hatt.
    split.
    + intros Hnil. assert (Hm : f ∈ filteredFlows t fl) by (by apply elem_of_type_filter).
      rewrite Hnil in Hm. by apply elem_of_nil in Hm.
    + apply Forall_forall. intros g Hg. by apply elem_of_type_filter in Hg as [_ ?].
Qed.

Example filters_on_a_view :
  let view := flows (pushAll [benign 1; benign 2; benign 3; portscan 4; benign 5] init) in
  uniqueAttackTypes view = [JStr "Port Scan"] /\
  (fun f => prop f "timestamp") <$> filteredFlows "Port Scan" view = [JNum (4 # 1)] /\
  (fun f => prop f "timestamp") <$> filteredFlows "attacks" view = [JNum (4 # 1)] /\
  length (filteredFlows "Benign" view) = 4.
Proof. vm_compute. repeat split. Qed.

End ViewFacts.

(** ** Snapshots and pushes compared *)

Module SnapshotFacts.
Import Monitor.

Lemma stable_sort_in_order (cmp : flow -> flow -> option Z) (l : list flow) :
  (forall i a b, l !! i = Some a -> l !! S i = Some b -> goes_after cmp a b = false) ->
  stable_sort cmp l = l.
Proof.
  induction l as [|x l IH]; intros Hadj; [done|].
  simpl. fold (stable_sort cmp l).
  rewrite IH by (intros i a b Ha Hb; exact (Hadj (S i) a b Ha Hb)).
  destruct l as [|y l]; [done|]. simpl.
  by rewrite (Hadj 0 x y eq_refl eq_refl).
Qed.

Lemma not_older_stays (Date : json -> option Z) (a b : flow) :
  not_older Date a b -> goes_after (compareFn Date) a b = false.
Proof.
  unfold not_older, goes_after, compareFn, time_of.
  destruct (Date (or_else (prop a "timestamp") (prop a "created_at"))); [|done].
  destruct (Date (or_else (prop b "timestamp") (prop b "created_at"))); [|done].
  intros H. apply Z.ltb_ge. lia.
Qed.

(** X12.  When the history comes most recent first, every timestamp a
    valid date, a runtime whose sort conforms leaves the records in the
    order received: the snapshot view is the first 200 mapped records. *)
Theorem snapshot_keeps_received_order (Date : json -> option Z)
    (Array_sort : (flow -> flow -> option Z) -> list flow -> list flow)
    (history : json) (l : list json) (st : state) :
  records history = Some l ->
  conforming Array_sort ->
  (forall i a b, l !! i = Some a -> l !! S i = Some b ->
                 not_older Date (fromHistory a) (fromHistory b)) ->
  Forall (fun h => is_Some (time_of Date (fromHistory h))) l ->
  flows (applySnapshot Date Array_sort history st) = take 200 (fromHistory <$> l).
Proof.
  intros Hrec Hrt Hadj Hv. unfold applySnapshot. rewrite Hrec. simpl.
  rewrite Hrt by (apply FlowFacts.compareFn_consistent; by rewrite Forall_fmap).
  rewrite stable_sort_in_order; [done|].
  intros i a b Ha Hb. rewrite list_lookup_fmap in Ha, Hb.
  destruct (l !! i) as [a'|] eqn:Ea; [|done].
  destruct (l !! S i) as [b'|] eqn:Eb; [|done].
  injection Ha as <-. injection Hb as <-.
  apply not_older_stays. by eapply Hadj.
Qed.

(** X13.  For a flow that carries both confidences, a push shows
    [confidence] and a snapshot shows [binary_confidence]. *)
Theorem confidence_precedence (h : flow) :
  truthy (prop h "confidence") = true ->
  truthy (prop h "binary_confidence") = true ->
  prop (flowData h) "confidence" = prop h "confidence" /\
  prop (fromHistory (JObj h)) "confidence" = prop h "binary_confidence".
Proof.
  intros Hc Hb. split.
  - unfold flowData, prop at 1. rewrite lookup_insert_eq. simpl.
    unfold or_else. by rewrite Hc, Hc.
  - unfold fromHistory, prop at 1. simpl.
    rewrite !lookup_insert_ne by done. rewrite lookup_insert_eq. simpl.
    unfold or_else. by rewrite Hb, Hb.
Qed.

Lemma confidence_precedence_witness :
  truthy (prop two_confidences "confidence") = true /\
  truthy (prop two_confidences "binary_confidence") = true /\
  prop (flowData two_confidences) "confidence" = JNum (3 # 10) /\
  prop (fromHistory (JObj two_confidences)) "confidence" = JNum (9 # 10).
Proof.
  split; [reflexivity|]. split; [reflexivity|].
  apply (confidence_precedence two_confidences); reflexivity.
Defined.

Lemma snapshot_keeps_received_order_witness :
  records (JArr ordered_history) = Some ordered_history /\
  conforming stable_sort /\
  Forall (fun h => is_Some (time_of Date_epoch (fromHistory h))) ordered_history /\
  (fun f => prop f "timestamp")
    <$> flows (applySnapshot Date_epoch stable_sort (JArr ordered_history) init)
  = [JNum (9 # 1); JNum (7 # 1); JNum (7 # 1); JNum (5 # 1)] /\
  flows (applySnapshot Date_epoch stable_sort (JArr ordered_history) init)
  = take 200 (fromHistory <$> ordered_history).
Proof.
  assert (Hv : Forall (fun h => is_Some (time_of Date_epoch (fromHistory h)))
                 ordered_history)
    by (repeat constructor; eexists; reflexivity).
  assert (Hrt : conforming stable_sort) by (by intros cmp l _).
  split; [reflexivity|]. split; [exact Hrt|]. split; [exact Hv|].
  split; [vm_compute; reflexivity|].
  apply (snapshot_keeps_received_order Date_epoch stable_sort (JArr ordered_history)
           ordered_history init
           eq_refl Hrt); [|exact Hv].
  intros [|[|[|[|i]]]] a b Ha Hb; try discriminate;
    injection Ha as <-; injection Hb as <-; vm_compute; discriminate.
Defined.

End SnapshotFacts.

(** ** The operations of the page *)

Module OperationFacts.
Import Monitor ControlFacts.

#[local] Arguments checkSnifferStatus : simpl never.
#[local] Arguments refreshStats : simpl never.

Section Operations.
Variable Date : json -> option Z.
Variable Array_sort : (flow -> flow -> option Z) -> list flow -> list flow.
Variable remote : nat -> request -> result.

(** The state a history refresh leaves. *)
Lemma after_refreshStats st :
  exec remote (refreshStats Date Array_sort) st =
    (match remote (length (requests st)) GetHistory with
     | Resolved history => applySnapshot Date Array_sort history (issue GetHistory st)
     | Rejected _ => issue GetHistory st
     end, inr tt).
Proof.
  unfold refreshStats. rewrite exec_try_catch, exec_bind, exec_await_api.
  by destruct (remote _ GetHistory).
Qed.

(** X14.  A history refresh whose request is rejected, or whose answer is
    not an array or holds a [null] record, changes nothing but the record
    of the request: the view and the counters are kept. *)
Theorem refresh_failure_keeps_view (st : state) :
  match remote (length (requests st)) GetHistory with
  | Resolved history => records history = None
  | Rejected _ => True
  end ->
  after remote (refreshStats Date Array_sort) st = issue GetHistory st /\
  (forall v, match v with JArr l => existsb nullish l = true | _ => True end ->
             records v = None).
Proof.
  intros H. split.
  - unfold after. rewrite after_refreshStats.
    destruct (remote _ GetHistory) as [history|e]; [|done].
    simpl. unfold applySnapshot. by rewrite H.
  - intros v Hv. destruct v; try done. simpl. by rewrite Hv.
Qed.

Lemma after_checkSnifferStatus st :
  exec remote checkSnifferStatus st =
    (let '(st', v) := checked (remote (length (requests st)) GetHealth) (issue GetHealth st) in
     (st', inr v)).
Proof.
  unfold checkSnifferStatus. rewrite exec_try_catch, exec_bind, exec_await_api.
  unfold checked.
  destruct (remote _ GetHealth) as [data|e]; simpl; [|done].
  destruct (nullish data); simpl; [done|].
  assert (Ht : truthy (or_else (get data "sniffer_running") (JBool false))
               = truthy (get data "sniffer_running")).
  { unfold or_else. by destruct (truthy (get data "sniffer_running")) eqn:E. }
  rewrite Ht. by destruct (truthy (get data "interface")).
Qed.

(** X15.  A status check issues one health request and never touches the
    view, the counters or the alerts.  When the answer is usable,
    [isMonitoring] becomes what it reports and [selectedInterface] is
    replaced by the interface it reports, if any, whatever was selected;
    when the request fails or the answer is [null], nothing else
    changes. *)
Theorem status_check_effects (st : state) :
  let st' := after remote checkSnifferStatus st in
  flows st' = flows st /\ stats st' = stats st /\ alerts st' = alerts st /\
  requests st' = requests st ++ [GetHealth] /\
  match remote (length (requests st)) GetHealth with
  | Resolved data =>
      if nullish data then st' = issue GetHealth st
      else
        isMonitoring st' = truthy (get data "sniffer_running") /\
        selectedInterface st' =
          (if truthy (get data "interface") then get data "interface"
           else selectedInterface st) /\
        (exists info, interfaceInfo st' = Some info /\
                      interface info = get data "interface")
  | Rejected _ => st' = issue GetHealth st
  end.
Proof.
  cbn zeta. unfold after. rewrite after_checkSnifferStatus. unfold checked.
  destruct (remote _ GetHealth) as [data|e]; [|done].
  destruct (nullish data); [done|].
  destruct (truthy (get data "interface")); simpl; repeat split; eauto.
Qed.

(** X16.  After a tick of the reconciliation interval [isMonitoring] is
    what the poll reported, a failed poll counting as not running; the
    view, the counters and the alerts are untouched. *)
Theorem poll_reconciles (c : closure) (st : state) :
  c_isMonitoring c = true ->
  let st' := after remote (poll c) st in
  isMonitoring st' = polled_running (remote (length (requests st)) GetHealth) /\
  flows st' = flows st /\ stats st' = stats st /\ alerts st' = alerts st /\
  requests st' = requests st ++ [GetHealth].
Proof.
  intros Hc. cbn zeta. unfold after, poll. rewrite exec_bind, after_checkSnifferStatus, Hc.
  unfold checked.
  destruct (remote _ GetHealth) as [data|e]; simpl.
  - destruct (nullish data) eqn:En; simpl.
    + repeat split; try done. by destruct data.
    + unfold or_else.
      destruct (truthy (get data "sniffer_running")) eqn:Er; simpl; rewrite ?Er;
        destruct (truthy (get data "interface")); simpl; by rewrite ?Er.
  - done.
Qed.



Lemma checked_frame res st :
  requests (fst (checked res st)) = requests st /\
  connects (fst (checked res st)) = connects st /\
  truthy (snd (checked res st)) = polled_running res.
Proof.
  unfold checked. destruct res as [data|e]; [|done].
  destruct (nullish data) eqn:En; [by destruct data|].
  destruct (truthy (get data "interface")); simpl; repeat split; try done;
    unfold or_else; by destruct (truthy (get data "sniffer_running")) eqn:E.
Qed.

Lemma refreshed_frame st :
  let st1 := fst (exec remote (refreshStats Date Array_sort) st) in
  requests st1 = requests st ++ [GetHistory] /\ connects st1 = connects st.
Proof.
  cbn zeta. rewrite after_refreshStats. cbn [fst].
  destruct (remote _ GetHistory) as [history|e]; [|done].
  destruct (applySnapshot_frame Date Array_sort history (issue GetHistory st)) as (_ & _ & -> & ->).
  done.
Qed.

(** X19.  A start issues the history query and the start action, the
    health query only if the start action was answered, and a second
    history query only if it was answered "started" and the poll reports
    running; it never issues anything else.  It calls [connect()] once
    when it ends running and the render saw the channel disconnected, and
    not at all otherwise. *)
Theorem start_trace (c : closure) (st : state) :
  let n := length (requests st) in
  let action := remote (S n) PostStart in
  let poll := remote (S (S n)) GetHealth in
  let st' := after remote (startMonitoring Date Array_sort c) st in
  let started :=
    match action with
    | Resolved data => str_is (get data "status") "started"
    | Rejected _ => false
    end in
  requests st' =
    requests st ++ [GetHistory; PostStart]
      ++ (match action with Resolved _ => [GetHealth] | Rejected _ => [] end)
      ++ (if started && polled_running poll then [GetHistory] else []) /\
  connects st' =
    connects st
    + (if action_ok action && polled_running poll && negb (c_isConnected c) then 1 else 0).
Proof.
  intros n action poll st' started. subst st'. unfold after, startMonitoring.
  rewrite exec_try_catch, exec_bind.
  destruct (refreshed_frame st) as [Hr1 Hc1].
  rewrite after_refreshStats in Hr1, Hc1 |- *. cbn [fst] in Hr1, Hc1.
  set (st1 := match remote (length (requests st)) GetHistory with
              | Resolved history => applySnapshot Date Array_sort history (issue GetHistory st)
              | Rejected _ => issue GetHistory st
              end) in *.
  clearbody st1. cbv beta iota.
  rewrite exec_bind, exec_await_api.
  assert (Hn1 : length (requests st1) = S n).
  { rewrite Hr1, length_app. simpl. subst n. lia. }
  rewrite Hn1. fold action. subst started.
  destruct action as [data|e] eqn:Eact; cbv beta iota.
  2:{ simpl. rewrite Hr1, Hc1, <- app_assoc. split; [done|]. lia. }
  rewrite exec_bind, exec_delay, exec_bind, after_checkSnifferStatus.
  destruct (checked_frame (remote (length (requests (issue PostStart st1))) GetHealth)
              (issue GetHealth (issue PostStart st1))) as (Hr2 & Hc2 & Hrun).
  destruct (checked _ _) as [st2 running]. cbn [fst snd] in Hr2, Hc2, Hrun.
  simpl in Hr2, Hc2, Hrun. rewrite length_app, Hn1 in Hrun. simpl in Hrun.
  replace (S (n + 1)) with (S (S n)) in Hrun by lia. fold poll in Hrun.
  assert (Hreq2 : requests st2 = requests st ++ [GetHistory; PostStart; GetHealth]).
  { rewrite Hr2, Hr1, <- !app_assoc. reflexivity. }
  cbv beta iota. cbn [action_ok]. rewrite <- Hrun.
  destruct (nullish data) eqn:En; cbn [negb andb].
  { exec_go. simpl. rewrite Hreq2, Hc2, Hc1.
    assert (str_is (get data "status") "started" = false) as -> by (by destruct data).
    simpl. split; [done|]. lia. }
  destruct (str_is (get data "status") "started") eqn:Es.
  - assert (str_is (get data "status") "warning" = false) as ->.
    { destruct (get data "status"); try done. simpl in *.
      apply String.eqb_eq in Es as ->. done. }
    assert (str_is (get data "status") "failed" = false) as ->.
    { destruct (get data "status"); try done. simpl in *.
      apply String.eqb_eq in Es as ->. done. }
    destruct (truthy running) eqn:Er; cbn [negb andb orb].
    + destruct (c_isConnected c); exec_go.
      * destruct (refreshed_frame (setIsMonitoring true st2)) as [Hr3 Hc3].
        rewrite after_refreshStats in Hr3, Hc3 |- *. cbn [fst] in Hr3, Hc3.
        cbv beta iota. cbn [fst]. simpl in Hr3, Hc3 |- *.
        rewrite Hr3, Hc3, Hreq2, Hc2, Hc1, <- !app_assoc. split; [done|]. simpl. lia.
      * destruct (refreshed_frame (connect (setIsMonitoring true st2))) as [Hr3 Hc3].
        rewrite after_refreshStats in Hr3, Hc3 |- *. cbn [fst] in Hr3, Hc3.
        cbv beta iota. cbn [fst]. simpl in Hr3, Hc3 |- *.
        rewrite Hr3, Hc3, Hreq2, Hc2, Hc1, <- !app_assoc. split; [done|]. simpl. lia.
    + exec_go. simpl. rewrite Hreq2, Hc2, Hc1. split; [done|]. lia.
  - cbn [andb].
    destruct (str_is (get data "status") "warning" || str_is (get data "status") "failed"
              || negb (truthy running)) eqn:Eb.
    + exec_go. simpl. rewrite Hreq2, Hc2, Hc1.
      assert (negb (str_is (get data "status") "warning")
              && negb (str_is (get data "status") "failed") && truthy running = false) as ->.
      { destruct (str_is (get data "status") "warning"),
                 (str_is (get data "status") "failed"), (truthy running); done. }
      simpl. split; [done|]. lia.
    + apply orb_false_iff in Eb as [Eb Er]. apply orb_false_iff in Eb as [-> ->].
      apply negb_false_iff in Er. rewrite Er. cbn [negb andb].
      destruct (c_isConnected c); exec_go; simpl;
        rewrite Hreq2, Hc2, Hc1; (split; [done|]); lia.
Qed.

End Operations.
Lemma refresh_failure_keeps_view_witness :
  match remote_down (length (requests (applyPush (portscan 1) init))) GetHistory with
  | Resolved history => records history = None
  | Rejected _ => True
  end /\
  after remote_down (refreshStats Date_epoch stable_sort) (applyPush (portscan 1) init)
    = issue GetHistory (applyPush (portscan 1) init).
Proof.
  split; [exact I|].
  apply (refresh_failure_keeps_view Date_epoch stable_sort remote_down (applyPush (portscan 1) init)).
  exact I.
Defined.

Lemma poll_reconciles_witness :
  c_isMonitoring (render (setIsMonitoring true init)) = true /\
  isMonitoring (after remote_not_really_started
                  (poll (render (setIsMonitoring true init)))
                  (setIsMonitoring true init)) = false.
Proof.
  split; [reflexivity|].
  apply (poll_reconciles remote_not_really_started
           (render (setIsMonitoring true init)) (setIsMonitoring true init)).
  reflexivity.
Defined.


Example selection_is_overwritten :
  let st := after remote_fine (changeInterface Date_epoch stable_sort (render init) "eth1") init in
  selectedInterface st = JStr "eth1" /\
  selectedInterface (after remote_fine checkSnifferStatus st) = JStr "eth0".
Proof. vm_compute. split; reflexivity. Qed.

Example start_trace_confirmed :
  let st' := after remote_fine (startMonitoring Date_epoch stable_sort (render init)) init in
  requests st' = [GetHistory; PostStart; GetHealth; GetHistory] /\ connects st' = 1.
Proof. vm_compute. split; reflexivity. Qed.

End OperationFacts.
